(** * devstack-monitor-analysis: the forensic pipeline, embedded and verified

    The development follows the repository's layout:

    - [Py]         the Python text primitives the report programs rely on
                   ([str.strip], [str.split(' ', 1)], insertion-ordered
                   [dict]);
    - [Yara]       the Python program embedded in [advanced-yara-tool.sh],
                   which turns the YARA output file into the JSON result
                   document;
    - [Sh]         a small monad for shell scripts: a trace of observable
                   effects, early [exit], and foreground processes that may
                   never return;
    - [YaraScript], [MultiTool]
                   the control flow of [advanced-yara-tool.sh] and
                   [multi-tool-forensic.sh]: the argument guard, the tool
                   steps and the JSON output;
    - [Pipeline]   the job state machine, the failure policies and the
                   orchestrator of the backend service, which the frontend
                   page [src/pages/ForensicsClean.tsx] polls;
    - [Custom]     the Python program of the custom analysis step of
                   [multi-tool-forensic.sh];
    - [Cn]         the class-name joiner [src/utils/cn.ts].

    Definitions come first, properties after them. *)

From Stdlib Require Import ZArith NArith String Ascii Permutation.
From stdpp Require Import gmap strings list fin_maps sorting.

Local Open Scope nat_scope.

(* stdpp's solvers clear hypotheses that are already gone. *)
Set Warnings "-clear-no-such-hyp,-register-all".

(* ===================================================================== *)
(** ** Python text primitives *)
(* ===================================================================== *)

Module Py.

(** A Python [str] is a sequence of Unicode code points. *)
Definition char := N.
Definition str := list char.

(** ASCII literals, for readable examples. *)
Definition u (s : string) : str :=
  (fun a : ascii => N_of_ascii a) <$> list_ascii_of_string s.

(** [str.isspace] on one character: CPython's [_PyUnicode_IsWhitespace]. *)
Definition isspace (c : char) : bool :=
  ((9 <=? c) && (c <=? 13)            (* \t \n \v \f \r *)
   || (28 <=? c) && (c <=? 31)        (* FS GS RS US *)
   || (c =? 32)                       (* space *)
   || (c =? 133) || (c =? 160)        (* NEL, NBSP *)
   || (c =? 5760)                     (* U+1680 *)
   || (8192 <=? c) && (c <=? 8202)    (* U+2000 .. U+200A *)
   || (c =? 8232) || (c =? 8233)      (* U+2028, U+2029 *)
   || (c =? 8239) || (c =? 8287)      (* U+202F, U+205F *)
   || (c =? 12288))%N.                (* U+3000 *)

(** [s.lstrip()], [s.rstrip()] and [s.strip()] without arguments. *)
Fixpoint lstrip (s : str) : str :=
  match s with
  | c :: s' => if isspace c then lstrip s' else s
  | [] => []
  end.

Definition rstrip (s : str) : str := reverse (lstrip (reverse s)).

Definition strip (s : str) : str := rstrip (lstrip s).

Definition SPACE : char := 32%N.

(** [s.split(' ', 1)]: cut at the first U+0020, at most once.  The result
    has one element when [s] holds no space and two otherwise. *)
Fixpoint split_space_1 (s : str) : list str :=
  match s with
  | [] => [[]]
  | c :: s' =>
      if (c =? SPACE)%N then [[]; s']
      else match split_space_1 s' with
           | p :: ps => (c :: p) :: ps
           | [] => [[c]]
           end
  end.

(** An insertion-ordered [dict]: assignment to a present key keeps the
    key's place, assignment to a new key appends it.  [json.dumps] prints
    the entries in this order. *)
Section ordered_dict.
Context {K V : Type} `{EqDecision K}.

Fixpoint od_get (k : K) (d : list (K * V)) : option V :=
  match d with
  | [] => None
  | (k', v) :: d' => if decide (k = k') then Some v else od_get k d'
  end.

Fixpoint od_set (k : K) (v : V) (d : list (K * V)) : list (K * V) :=
  match d with
  | [] => [(k, v)]
  | (k', v') :: d' =>
      if decide (k = k') then (k, v) :: d' else (k', v') :: od_set k v d'
  end.

(** [k in d] *)
Definition od_mem (k : K) (d : list (K * V)) : bool :=
  bool_decide (is_Some (od_get k d)).

(** [d.keys()] and [d.values()] *)
Definition od_keys (d : list (K * V)) : list K := fst <$> d.
Definition od_values (d : list (K * V)) : list V := snd <$> d.
End ordered_dict.

End Py.

(* ===================================================================== *)
(** ** advanced-yara-tool.sh *)
(* ===================================================================== *)

Module Yara.
Import Py.

(** *** The embedded Python program (lines 273-317)

    The shell substitutes [$OUTPUT_FILE], [$DUMP_FILE], [$ANALYSIS_DIR] and
    [$YARA_RULES] into the program text before Python starts, so they are
    parameters of the program; the clock is read once, by
    [datetime.now().isoformat()]. *)

Record params := {
  p_dump_file : str;
  p_analysis_dir : str;
  p_yara_rules : str;
}.

(** The two dictionaries filled by the loop. *)
Record tables := {
  matches : list (str * list str);
  rule_counts : list (str * nat);
}.

Definition empty_tables : tables := {| matches := []; rule_counts := [] |}.

(** One iteration of [for line in f] (lines 283-295). *)
Definition loop_body (t : tables) (line : str) : tables :=
  if bool_decide (strip line = []) then t
  else
    let parts := split_space_1 (strip line) in
    if bool_decide (2 <= length parts) then
      let rule_name := nth 0 parts [] in
      let match_info := nth 1 parts [] in
      let t1 :=
        if negb (od_mem rule_name (matches t)) then
          {| matches := od_set rule_name [] (matches t);
             rule_counts := od_set rule_name 0 (rule_counts t) |}
        else t in
      {| matches :=
           od_set rule_name
             (default [] (od_get rule_name (matches t1)) ++ [match_info])
             (matches t1);
         rule_counts :=
           od_set rule_name
             (default 0 (od_get rule_name (rule_counts t1)) + 1)
             (rule_counts t1) |}
    else t.

Definition read_matches (lines : list str) : tables :=
  foldl loop_body empty_tables lines.

Record key_findings_t := {
  credentials_found : bool;
  system_config_found : bool;
  process_maps_found : bool;
  network_info_found : bool;
  ssh_keys_found : bool;
  potential_malware : bool;
}.

(** [rule_counts.get(name, 0) > 0] *)
Definition found (name : string) (counts : list (str * nat)) : bool :=
  bool_decide (0 < default 0 (od_get (u name) counts)).

Record results := {
  analysis_timestamp : str;
  dump_file : str;
  analysis_directory : str;
  yara_rules_file : str;
  total_matches : nat;
  rule_summary : list (str * nat);
  detailed_matches : list (str * list str);
  key_findings : key_findings_t;
}.

(** The [results] dictionary of lines 298-314; [now] is what
    [datetime.now().isoformat()] returned, [lines] what iterating over the
    YARA output file yields. *)
Definition make_results (now : str) (p : params) (lines : list str) : results :=
  let t := read_matches lines in
  {| analysis_timestamp := now;
     dump_file := p_dump_file p;
     analysis_directory := p_analysis_dir p;
     yara_rules_file := p_yara_rules p;
     total_matches := sum_list (od_values (rule_counts t));
     rule_summary := rule_counts t;
     detailed_matches := matches t;
     key_findings :=
       {| credentials_found := found "CirrOS_Credentials" (rule_counts t);
          system_config_found := found "System_Configuration" (rule_counts t);
          process_maps_found := found "Process_Memory_Maps" (rule_counts t);
          network_info_found := found "Network_Information" (rule_counts t);
          ssh_keys_found := found "SSH_Keys_And_Auth" (rule_counts t);
          potential_malware := found "Potential_Malware" (rule_counts t) |} |}.

(** What the script substitutes into the program text (lines 21-22, 28
    and 300-302): [$DUMP_FILE] is the script's argument, [$ANALYSIS_DIR]
    and [$YARA_RULES] are built from [TIMESTAMP], the output of
    [date +%Y%m%d_%H%M%S] when the script starts. *)
Definition script_params (DUMP_FILE TIMESTAMP : str) : params :=
  let ANALYSIS_DIR := u "./advanced_yara_analysis_" ++ TIMESTAMP in
  {| p_dump_file := DUMP_FILE;
     p_analysis_dir := ANALYSIS_DIR;
     p_yara_rules := ANALYSIS_DIR ++ u "/advanced_forensic.yar" |}.

(** The document of one run of the script: [now] is the clock reading of
    the Python program, [TIMESTAMP] the date stamp of the script. *)
Definition report (now DUMP_FILE TIMESTAMP : str) (lines : list str) : results :=
  make_results now (script_params DUMP_FILE TIMESTAMP) lines.

(** The six rule names [key_findings] looks at. *)
Definition flagged_rules : list string :=
  ["CirrOS_Credentials"; "System_Configuration"; "Process_Memory_Maps";
   "Network_Information"; "SSH_Keys_And_Auth"; "Potential_Malware"].

(** What one line contributes, read off [loop_body]: the rule name and the
    match text of a line that is kept, [None] for a line that is skipped. *)
Definition parse_line (line : str) : option (str * str) :=
  if bool_decide (strip line = []) then None
  else
    let parts := split_space_1 (strip line) in
    if bool_decide (2 <= length parts)
    then Some (nth 0 parts [], nth 1 parts [])
    else None.

(** The match texts of rule [r] among parsed lines, in input order. *)
Definition infos_of (r : str) (ps : list (str * str)) : list str :=
  snd <$> filter (λ p, p.1 = r) ps.

(** The kept lines of an output file, parsed, in input order. *)
Definition parsed (lines : list str) : list (str * str) := omap parse_line lines.

(** What the loop maintains after reading lines whose parse is [ps]: each
    rule with at least one match maps to its match texts in input order,
    its counter is the length of that list and the counters add up to the
    number of kept lines. *)
Definition tables_inv (t : tables) (ps : list (str * str)) : Prop :=
  (∀ r, od_get r (matches t)
        = if bool_decide (infos_of r ps = []) then None else Some (infos_of r ps))
  ∧ (∀ r, od_get r (rule_counts t) = length <$> od_get r (matches t))
  ∧ sum_list (od_values (rule_counts t)) = length ps.

(** The document with its clock reading replaced. *)
Definition with_timestamp (now : str) (r : results) : results :=
  {| analysis_timestamp := now;
     dump_file := dump_file r;
     analysis_directory := analysis_directory r;
     yara_rules_file := yara_rules_file r;
     total_matches := total_matches r;
     rule_summary := rule_summary r;
     detailed_matches := detailed_matches r;
     key_findings := key_findings r |}.

(** Sample inputs: a YARA output with one rule the report program has no
    flag for, and two orderings of the same output lines. *)
Definition sample_params : params :=
  {| p_dump_file := u "./simple_dumps/test_cirros2.raw";
     p_analysis_dir := u "./advanced_yara_analysis_20250101_120000";
     p_yara_rules := u "./advanced_yara_analysis_20250101_120000/advanced_forensic.yar" |}.

Definition unflagged_output : list str :=
  [u "Command_History ./simple_dumps/test_cirros2.raw";
   u "0x2a:$sudo_cmd: sudo "].

Definition sample_output : list str :=
  [u "CirrOS_Credentials ./simple_dumps/test_cirros2.raw";
   u "0x1f40:$gocubsgo: gocubsgo";
   u "";
   u "Network_Information ./simple_dumps/test_cirros2.raw"].

Definition sample_output_reordered : list str :=
  [u "Network_Information ./simple_dumps/test_cirros2.raw";
   u "";
   u "CirrOS_Credentials ./simple_dumps/test_cirros2.raw";
   u "0x1f40:$gocubsgo: gocubsgo"].

End Yara.

(* ===================================================================== *)
(** ** Shell scripts as programs over an observable trace *)
(* ===================================================================== *)

Module Sh.

(** What a run leaves behind.  Of the scripts' standard output only the
    usage lines and the JSON sentinels are kept ([Echo]); banner lines and
    the read-only reporting pipelines ([ls], [head], [find], [grep], [wc])
    are left out. *)
Inductive effect :=
| Echo (line : string)
| Mkdir (path : string)              (* mkdir -p *)
| WriteFile (path : string)          (* a redirection or here-document target *)
| Exec (argv : list string)          (* an external command, in the foreground *)
| Cat (path : string).               (* file contents copied to stdout *)

(** An external process as the shell sees it: it exits on its own after
    [runs_for] seconds with [exit_status], or never ([None]). *)
Record proc := { runs_for : option nat; exit_status : nat }.

(** The machine a script runs on. *)
Record world := {
  is_file : string → bool;           (* [ -f p ] *)
  command_v : string → bool;         (* command -v tool *)
  date_stamp : string;               (* date +%Y%m%d_%H%M%S *)
  behaviour : list string → proc;    (* how a command line behaves *)
}.

Record state := { trace : list effect; elapsed : nat }.

Definition start : state := {| trace := []; elapsed := 0 |}.

(** A command sequence either falls through with a value, leaves the
    script with [exit n], or never gets past a foreground process. *)
Inductive result (A : Type) :=
| Returns (a : A) (s : state)
| Exits (code : nat) (s : state)
| Blocks (s : state).
Arguments Returns {A} a s.
Arguments Exits {A} code s.
Arguments Blocks {A} s.

Definition sh (A : Type) : Type := state → result A.

#[global] Instance sh_ret : MRet sh := λ A a s, Returns a s.
#[global] Instance sh_bind : MBind sh := λ A B f m s,
  match m s with
  | Returns a s' => f a s'
  | Exits n s' => Exits n s'
  | Blocks s' => Blocks s'
  end.

Definition emit (e : effect) : sh unit := λ s,
  Returns tt {| trace := trace s ++ [e]; elapsed := elapsed s |}.

Definition exit {A} (code : nat) : sh A := λ s, Exits code s.

(** Run [argv] in the foreground and wait for it: no [timeout] wrapper, no
    background job, no [kill] appears in either script.  The value is the
    exit status. *)
Definition exec (w : world) (argv : list string) : sh nat := λ s,
  let s' := {| trace := trace s ++ [Exec argv]; elapsed := elapsed s |} in
  match runs_for (behaviour w argv) with
  | Some d => Returns (exit_status (behaviour w argv))
                {| trace := trace s'; elapsed := elapsed s' + d |}
  | None => Blocks s'
  end.

(** [cmd > file]: the shell creates the file, then starts the command. *)
Definition exec_to (w : world) (file : string) (argv : list string) : sh nat :=
  emit (WriteFile file);; exec w argv.

(** [a && b] *)
Definition and_then (a b : sh nat) : sh nat :=
  r ← a; if bool_decide (r = 0) then b else mret r.

(** The exit status of a whole script: that of its last command, an
    [echo], unless it left early. *)
Inductive outcome :=
| Finished (code : nat) (s : state)
| Hangs (s : state).

Definition run (body : sh unit) : outcome :=
  match body start with
  | Returns _ s => Finished 0 s
  | Exits n s => Finished n s
  | Blocks s => Hangs s
  end.

(** Lines 7-13 of both scripts.  [args] are the positional parameters,
    [script] is [$0]. *)
Definition dump_file_guard (w : world) (script : string) (args : list string)
    (example : string) : sh string :=
  let DUMP_FILE := nth 0 args "" in
  if bool_decide (DUMP_FILE = "") || negb (is_file w DUMP_FILE) then
    emit (Echo ("Usage: " +:+ script +:+ " <memory_dump_file>"));;
    emit (Echo ("Example: " +:+ script +:+ " " +:+ example));;
    exit 1
  else mret DUMP_FILE.

Definition JSON_OUTPUT_START : string := "=== JSON_OUTPUT_START ===".
Definition JSON_OUTPUT_END : string := "=== JSON_OUTPUT_END ===".

(** Effects that count as analysis work or output. *)
Definition is_work (e : effect) : bool :=
  match e with
  | Echo l => bool_decide (l = JSON_OUTPUT_START ∨ l = JSON_OUTPUT_END)
  | Mkdir _ | WriteFile _ | Exec _ | Cat _ => true
  end.

(** A machine on which every command line exits on its own. *)
Definition all_exit (w : world) : Prop :=
  ∀ argv, is_Some (runs_for (behaviour w argv)).

(** [m] falls through from every state and only adds to the trace. *)
Definition falls_through {A} (m : sh A) : Prop :=
  ∀ s, ∃ a s' more, m s = Returns a s' ∧ trace s' = trace s ++ more.

(** [m] falls through and the trace it adds ends with [suffix]. *)
Definition ends_with (m : sh unit) (suffix : list effect) : Prop :=
  ∀ s, ∃ s' more, m s = Returns tt s' ∧ trace s' = trace s ++ more ++ suffix.

(** The state a command sequence is in when it is over, whichever way. *)
Definition state_of {A} (r : result A) : state :=
  match r with
  | Returns _ s | Exits _ s | Blocks s => s
  end.

(** Whichever way [m] ends, it only adds to the trace, and only effects
    that satisfy [P]. *)
Definition only (P : effect → Prop) {A} (m : sh A) : Prop :=
  ∀ s, ∃ more, trace (state_of (m s)) = trace s ++ more ∧ Forall P more.

(** [m] falls through and [e] is among the effects it adds. *)
Definition adds (e : effect) {A} (m : sh A) : Prop :=
  ∀ s, ∃ a s' more, m s = Returns a s' ∧ trace s' = trace s ++ more ∧ e ∈ more.

End Sh.

Module YaraScript.
Import Sh.

Definition script (w : world) (name : string) (args : list string) : sh unit :=
  DUMP_FILE ← dump_file_guard w name args "./simple_dumps/test_cirros2.raw";
  let ANALYSIS_DIR := "./advanced_yara_analysis_" +:+ date_stamp w in
  emit (Mkdir ANALYSIS_DIR);;
  let YARA_RULES := ANALYSIS_DIR +:+ "/advanced_forensic.yar" in
  emit (WriteFile YARA_RULES);;
  let OUTPUT_FILE := ANALYSIS_DIR +:+ "/advanced_matches.txt" in
  exec_to w OUTPUT_FILE ["yara"; "-s"; YARA_RULES; DUMP_FILE];;
  let SUMMARY_FILE := ANALYSIS_DIR +:+ "/forensic_summary.txt" in
  emit (WriteFile SUMMARY_FILE);;
  let JSON_OUTPUT := ANALYSIS_DIR +:+ "/advanced_yara_results.json" in
  exec_to w JSON_OUTPUT ["python3"];;
  emit (Echo JSON_OUTPUT_START);;
  emit (Cat JSON_OUTPUT);;
  emit (Echo JSON_OUTPUT_END).

End YaraScript.

(* ===================================================================== *)
(** ** multi-tool-forensic.sh *)
(* ===================================================================== *)

Module MultiTool.
Import Sh.

(** The command lines of lines 59 and 194. *)
Definition binwalk_argv (DUMP_FILE ANALYSIS_DIR : string) : list string :=
  ["binwalk"; "-e"; "-M"; DUMP_FILE; "--dd=.*";
   "--directory=" +:+ ANALYSIS_DIR +:+ "/binwalk_extracted"].

Definition yara_argv (DUMP_FILE ANALYSIS_DIR : string) : list string :=
  ["yara"; "-s"; ANALYSIS_DIR +:+ "/memory_analysis.yar"; DUMP_FILE].

(** [if command -v tool; then run; else sudo apt-get install ...; fi]:
    a missing tool is installed and {e not} run. *)
Definition binwalk_step (w : world) (DUMP_FILE ANALYSIS_DIR : string) : sh unit :=
  if command_v w "binwalk" then
    exec_to w (ANALYSIS_DIR +:+ "/binwalk_analysis.txt")
      (binwalk_argv DUMP_FILE ANALYSIS_DIR);;
    mret tt
  else
    and_then (exec w ["sudo"; "apt-get"; "update"])
             (exec w ["sudo"; "apt-get"; "install"; "-y"; "binwalk"]);;
    mret tt.

Definition foremost_step (w : world) (DUMP_FILE ANALYSIS_DIR : string) : sh unit :=
  if command_v w "foremost" then
    let FOREMOST_DIR := ANALYSIS_DIR +:+ "/foremost_carved" in
    emit (Mkdir FOREMOST_DIR);;
    exec w ["foremost"; "-t"; "all"; "-i"; DUMP_FILE; "-o"; FOREMOST_DIR];;
    mret tt
  else
    exec w ["sudo"; "apt-get"; "install"; "-y"; "foremost"];;
    mret tt.

Definition bulk_extractor_step (w : world) (DUMP_FILE ANALYSIS_DIR : string) : sh unit :=
  if command_v w "bulk_extractor" then
    let BULK_DIR := ANALYSIS_DIR +:+ "/bulk_extractor_output" in
    emit (Mkdir BULK_DIR);;
    exec w ["bulk_extractor"; "-o"; BULK_DIR; DUMP_FILE];;
    mret tt
  else
    exec w ["sudo"; "apt-get"; "install"; "-y"; "bulk-extractor"];;
    mret tt.

Definition yara_step (w : world) (DUMP_FILE ANALYSIS_DIR : string) : sh unit :=
  let YARA_RULES := ANALYSIS_DIR +:+ "/memory_analysis.yar" in
  emit (WriteFile YARA_RULES);;
  if command_v w "yara" then
    exec_to w (ANALYSIS_DIR +:+ "/yara_matches.txt")
      (yara_argv DUMP_FILE ANALYSIS_DIR);;
    mret tt
  else
    exec w ["sudo"; "apt-get"; "install"; "-y"; "yara"];;
    mret tt.

Definition strings_step (w : world) (DUMP_FILE ANALYSIS_DIR : string) : sh unit :=
  exec_to w (ANALYSIS_DIR +:+ "/strings_advanced.txt")
    ["strings"; "-a"; "-t"; "x"; "-n"; "4"; DUMP_FILE];;
  mret tt.

Definition hexdump_step (w : world) (DUMP_FILE ANALYSIS_DIR : string) : sh unit :=
  exec_to w (ANALYSIS_DIR +:+ "/hexdump_patterns.txt") ["hexdump"; "-C"; DUMP_FILE];;
  exec w ["hexdump"; "-C"; DUMP_FILE];;     (* | grep "7f 45 4c 46" *)
  exec w ["hexdump"; "-C"; DUMP_FILE];;     (* | grep "89 50 4e 47" *)
  exec w ["hexdump"; "-C"; DUMP_FILE];;     (* | grep "50 4b 03 04" *)
  mret tt.

(** Tool 7 and the report are Python programs read from a here-document;
    their command line is plain [python3]. *)
Definition custom_step (w : world) (ANALYSIS_DIR : string) : sh unit :=
  exec_to w (ANALYSIS_DIR +:+ "/custom_memory_analysis.txt") ["python3"];;
  mret tt.




Definition script (w : world) (name : string) (args : list string) : sh unit :=
  DUMP_FILE ← dump_file_guard w name args "./api_dumps/instance.dump";
  let ANALYSIS_DIR := "./multi_tool_analysis_" +:+ date_stamp w in
  emit (Mkdir ANALYSIS_DIR);;
  let RESULTS_JSON := ANALYSIS_DIR +:+ "/multi_tool_results.json" in
  emit (WriteFile RESULTS_JSON);;
  binwalk_step w DUMP_FILE ANALYSIS_DIR;;
  foremost_step w DUMP_FILE ANALYSIS_DIR;;
  bulk_extractor_step w DUMP_FILE ANALYSIS_DIR;;
  yara_step w DUMP_FILE ANALYSIS_DIR;;
  strings_step w DUMP_FILE ANALYSIS_DIR;;
  hexdump_step w DUMP_FILE ANALYSIS_DIR;;
  custom_step w ANALYSIS_DIR;;
  exec w ["python3"];;
  emit (WriteFile RESULTS_JSON);;
  emit (Echo JSON_OUTPUT_START);;
  emit (Cat RESULTS_JSON);;
  emit (Echo JSON_OUTPUT_END).

(** Sample machines: every tool installed and every file present; a
    command line exits at once with status 0 unless it starts with the word
    [slow], which then behaves as [p]. *)
Definition machine (slow : string) (p : proc) : world :=
  {| is_file := λ _, true;
     command_v := λ _, true;
     date_stamp := "20250101_120000";
     behaviour := λ argv,
       if bool_decide (nth 0 argv "" = slow) then p
       else {| runs_for := Some 0; exit_status := 0 |} |}.

(** A machine on which no path names a regular file. *)
Definition empty_disk : world :=
  {| is_file := λ _, false;
     command_v := λ _, true;
     date_stamp := "20250101_120000";
     behaviour := λ _, {| runs_for := Some 0; exit_status := 0 |} |}.

(** A machine with every tool installed but [tool]. *)
Definition without (tool : string) : world :=
  {| is_file := λ _, true;
     command_v := λ t, bool_decide (t ≠ tool);
     date_stamp := "20250101_120000";
     behaviour := λ _, {| runs_for := Some 0; exit_status := 0 |} |}.


Definition never_exits : proc := {| runs_for := None; exit_status := 0 |}.
Definition one_hour : proc := {| runs_for := Some 3600; exit_status := 0 |}.

End MultiTool.

(* ===================================================================== *)
(** ** The pipeline service behind the forensic page *)
(* ===================================================================== *)

(** [src/pages/ForensicsClean.tsx] polls [/api/integrated-forensic] and
    renders [status], [progress], [current_step], [error_message] and the
    result summary ([total_tools_run], [successful_tools], [failed_tools]).
    The service that produces them ([backend/app/services/
    integrated_forensic.py], [backend/app/api/endpoints/forensic.py]) is not
    among the sources; its parts are modelled here from the specification. *)

Module Pipeline.

(** Modelled from the spec: the outcome of one Tool Adapter run (section
    3, PhaseResult); the adapter code itself is missing. *)
Inductive Outcome := Success | PartialSuccess | Failure.

#[global] Instance Outcome_eq_dec : EqDecision Outcome.
Proof. solve_decision. Defined.

(** Modelled from the spec: the error taxonomy of section 7 (the service's
    error type is missing). *)
Inductive ErrorKind :=
| AcquisitionFailed | ToolTimeout | ToolOutputUnparsable
| PhaseFailurePolicyViolated | ReportRenderFailed | CapacityExceeded
| NotFound | NotReady | CancelledError.

(** Modelled from the spec: one entry of [toolOutcomes]; the structured
    output and the duration are not needed by any property below.
    The service's code for it is missing. *)
Record ToolOutcome := {
  toolName : string;
  outcome : Outcome;
  rawLog : string;
}.

(** Modelled from the spec: the failure policy of a phase (section 4.2).
    The service's code for it is missing. *)
Inductive FailurePolicy := AllMustSucceed | MajoritySucceed | BestEffort.

(** Modelled from the spec: what a [phaseSpec] declares (section 4.2), as
    far as the properties below depend on it: the phase's name and its
    failure policy.
    The service's code for it is missing. *)
Record PhaseSpec := {
  specTag : string;
  specPolicy : FailurePolicy;
}.

(** Modelled from the spec: the PhaseResult of section 3.
    The service's code for it is missing. *)
Record PhaseResult := {
  phaseTag : string;
  toolOutcomes : list ToolOutcome;
}.

(** Modelled from the spec: a tool "produced output" unless its outcome is
    Failure (section 4.1: PartialSuccess means partial data was recovered).
    The service's code for it is missing. *)
Definition produced_output (t : ToolOutcome) : bool :=
  bool_decide (outcome t ≠ Failure).

(** Modelled from the spec: a tool counted as failed, outcome Failure.
    The service's code for it is missing. *)
Definition failed_tool (t : ToolOutcome) : bool :=
  bool_decide (outcome t = Failure).

(** Modelled from the spec: when a failure policy is satisfied (section
    4.2).  [BestEffort]: any number may fail, at least one tool produced
    output.
    The service's code for it is missing. *)
Definition policy_satisfied (p : FailurePolicy) (ts : list ToolOutcome) : bool :=
  match p with
  | AllMustSucceed => forallb (λ t, negb (failed_tool t)) ts
  | MajoritySucceed =>
      bool_decide (length ts < 2 * length (filter (λ t, outcome t ≠ Failure) ts))
  | BestEffort => existsb produced_output ts
  end.

(** Modelled from the spec: the ResultDocument of section 3, as far as
    the job state machine fills it: the subject, the phase results the
    findings are taken from, the non-fatal warning of section 4.3
    (Analyzing) that annotates the result, and the [reportError] flag of
    section 4.3 (Reporting).  The findings, the tool summary, the
    acquisition details and [generatedAt] are left out.
    The service's code for it is missing. *)
Record ResultDocument := {
  doc_subjectRef : string;
  doc_phases : list PhaseResult;
  doc_warnings : list string;
  doc_reportError : bool;
}.

(** Modelled from the spec: the job states of section 4.3.
    The service's code for it is missing. *)
Inductive Phase :=
| Pending | Acquiring | Analyzing | Reporting | Completed | Failed | Cancelled.

#[global] Instance Phase_eq_dec : EqDecision Phase.
Proof. solve_decision. Defined.

(** Modelled from the spec: "Completed, Failed, Cancelled are terminal".
    The service's code for it is missing. *)
Definition terminal (p : Phase) : bool :=
  match p with Completed | Failed | Cancelled => true | _ => false end.

(** Modelled from the spec: a job occupies a worker slot from Acquiring to
    Reporting (section 4.4).
    The service's code for it is missing. *)
Definition active (p : Phase) : bool :=
  match p with Acquiring | Analyzing | Reporting => true | _ => false end.

(** Modelled from the spec: what [errorDetail] holds.  Section 4.3 puts
    two things there: the error a job failed with ("Failed with
    AcquisitionFailed"), and, for a job that goes on after a BestEffort
    phase fell short, "the shortfall ... as a non-fatal warning", here the
    tags of the phases concerned.
    The service's code for it is missing. *)
Inductive ErrorDetail :=
| Fatal (e : ErrorKind)
| Warning (shortfall : list string).

(** Modelled from the spec: the Job of section 3, without its timestamps.
    [phasesDone] and [collected] are the state machine's own bookkeeping:
    the analysis phases completed so far and their results.
    The service's code for it is missing. *)
Record Job := {
  id : nat;
  subjectRef : string;
  phase : Phase;
  progressPercent : nat;
  currentStepLabel : string;
  errorDetail : option ErrorDetail;
  result : option ResultDocument;
  phasesDone : nat;
  collected : list PhaseResult;
}.

(** Modelled from the spec: the shortfall recorded in a job's
    [errorDetail] so far, none when the field is absent.
    The service's code for it is missing. *)
Definition shortfall_of (j : Job) : list string :=
  match errorDetail j with
  | Some (Warning l) => l
  | Some (Fatal _) | None => []
  end.

(** Modelled from the spec: what a deployment configures (sections 4.3 and
    4.4): the analysis phases in their declared order (at least one),
    whether the report is mandatory, the worker-pool size and the cap of
    the job table.
    The service's code for it is missing. *)
Record Config := {
  firstPhase : PhaseSpec;
  morePhases : list PhaseSpec;
  reportMandatory : bool;
  poolSize : nat;
  tableCap : nat;
}.

(** Modelled from the spec: "runs one or more analysis phases".
    The service's code for it is missing. *)
Definition analysisPhases (c : Config) : nat := S (length (morePhases c)).

(** Modelled from the spec: the phase a job with [done] completed analysis
    phases is in.
    The service's code for it is missing. *)
Definition current_spec (c : Config) (done : nat) : PhaseSpec :=
  nth done (firstPhase c :: morePhases c) (firstPhase c).

(** Modelled from the spec: the progress milestones of section 4.3: 25
    after acquisition, 25 to 75 split evenly across the analysis phases,
    100 on completion.
    The service's code for it is missing. *)
Definition ACQUIRED : nat := 25.
Definition ANALYZED : nat := 75.

(** Modelled from the spec: the progress once [done] analysis phases have
    completed, with whole-number division.
    The service's code for it is missing. *)

Definition progress_after (c : Config) (done : nat) : nat :=
  ACQUIRED + ((ANALYZED - ACQUIRED) * done) / analysisPhases c.

(** Modelled from the spec: what the state machine of one job reacts to.
    The service's code for it is missing. *)
Inductive WorkerEvent :=
| AcquisitionDone (ok : bool)
| PhaseDone (r : PhaseResult)
| ReportDone (ok : bool).

(** Modelled from the spec: the worker events, the grant of a slot and a
    cancellation request.
    The service's code for it is missing. *)
Inductive JobEvent :=
| Dequeued
| Work (e : WorkerEvent)
| CancelRequested.

(** Modelled from the spec: the job as [Submit] creates it: Pending,
    nothing done, no error and no result.
    The service's code for it is missing. *)
Definition new_job (i : nat) (subject : string) : Job :=
  {| id := i; subjectRef := subject; phase := Pending; progressPercent := 0;
     currentStepLabel := "Queued"; errorDetail := None; result := None;
     phasesDone := 0; collected := [] |}.

(** Modelled from the spec: "Failed: terminal, errorDetail set, no
    result"; the progress stays where it was.
    The service's code for it is missing. *)
Definition fail_with (j : Job) (e : ErrorKind) : Job :=
  {| id := id j; subjectRef := subjectRef j; phase := Failed;
     progressPercent := progressPercent j;
     currentStepLabel := currentStepLabel j; errorDetail := Some (Fatal e);
     result := None; phasesDone := phasesDone j; collected := collected j |}.

(** Modelled from the spec: a transition that changes the phase tag, the
    progress and the step label only.
    The service's code for it is missing. *)
Definition move_to (j : Job) (p : Phase) (pct : nat) (label : string) : Job :=
  {| id := id j; subjectRef := subjectRef j; phase := p;
     progressPercent := pct; currentStepLabel := label;
     errorDetail := errorDetail j; result := result j;
     phasesDone := phasesDone j; collected := collected j |}.

(** Modelled from the spec: the Result Aggregator's contract
    [Aggregate(subjectRef, acquisitionInfo, []PhaseResult)] as far as the
    job state machine depends on it.
    The service's code for it is missing. *)
Definition Aggregate (subject : string) (rs : list PhaseResult)
    (warnings : list string) (reportError : bool) : ResultDocument :=
  {| doc_subjectRef := subject; doc_phases := rs;
     doc_warnings := warnings; doc_reportError := reportError |}.

(** Modelled from the spec: whether a finished phase fell short under
    BestEffort: the policy is BestEffort and some tool's outcome is Failure
    (section 4.3, Analyzing: "under BestEffort the job proceeds with
    partial results and records the shortfall").
    The service's code for it is missing. *)
Definition fell_short (p : FailurePolicy) (r : PhaseResult) : bool :=
  match p with
  | BestEffort => existsb failed_tool (toolOutcomes r)
  | AllMustSucceed | MajoritySucceed => false
  end.

(** Modelled from the spec: one analysis phase has finished (section 4.3,
    Analyzing).  A violated policy fails the job (section 7: a policy
    violation is fatal for the job); a satisfied one advances it, and a
    BestEffort phase that fell short is recorded in [errorDetail] as a
    non-fatal warning while the job proceeds.
    The service's code for it is missing. *)
Definition phase_done (c : Config) (j : Job) (r : PhaseResult) : Job :=
  let policy := specPolicy (current_spec c (phasesDone j)) in
  if policy_satisfied policy (toolOutcomes r) then
    let done := S (phasesDone j) in
    let last := bool_decide (analysisPhases c ≤ done) in
    {| id := id j; subjectRef := subjectRef j;
       phase := if last then Reporting else Analyzing;
       progressPercent := progress_after c done;
       currentStepLabel := if last then "Generating report" else "Analyzing";
       errorDetail :=
         if fell_short policy r
         then Some (Warning (shortfall_of j ++ [phaseTag r]))
         else errorDetail j;
       result := result j;
       phasesDone := done; collected := collected j ++ [r] |}
  else fail_with j PhaseFailurePolicyViolated.

(** Modelled from the spec: the report renderer has returned (section
    4.3, Reporting).  A failed render still completes the job, with
    [reportError] set, unless the report is mandatory.  The warning in
    [errorDetail] stays on the job and annotates the result.
    The service's code for it is missing. *)
Definition report_done (c : Config) (j : Job) (ok : bool) : Job :=
  if negb ok && reportMandatory c then fail_with j ReportRenderFailed
  else
    {| id := id j; subjectRef := subjectRef j; phase := Completed;
       progressPercent := 100; currentStepLabel := "Completed";
       errorDetail := errorDetail j;
       result := Some (Aggregate (subjectRef j) (collected j) (shortfall_of j) (negb ok));
       phasesDone := phasesDone j; collected := collected j |}.

(** Modelled from the spec: the Job State Machine of section 4.3.  An
    event that does not apply to the current state leaves the job as it
    is; terminal states accept nothing.
    The service's code for it is missing. *)
Definition job_step (c : Config) (j : Job) (e : JobEvent) : Job :=
  match phase j, e with
  | Pending, Dequeued => move_to j Acquiring (progressPercent j) "Dumping memory"
  | Acquiring, Work (AcquisitionDone true) => move_to j Analyzing ACQUIRED "Analyzing"
  | Acquiring, Work (AcquisitionDone false) => fail_with j AcquisitionFailed
  | Analyzing, Work (PhaseDone r) => phase_done c j r
  | Reporting, Work (ReportDone ok) => report_done c j ok
  | (Pending | Acquiring | Analyzing | Reporting), CancelRequested =>
      move_to j Cancelled (progressPercent j) "Cancelled"
  | _, _ => j
  end.

(** The states observed for one job: the job as submitted, then the job
    after each event. *)
Fixpoint observed (c : Config) (j : Job) (es : list JobEvent) : list Job :=
  match es with
  | [] => [j]
  | e :: es' => j :: observed c (job_step c j e) es'
  end.

(** Modelled from the spec: the Orchestrator's shared state (sections 4.4
    and 5): the job table, the FIFO of pending jobs and the slot table of
    the worker pool.
    The service's code for it is missing. *)
Record Orchestrator := {
  jobs : gmap nat Job;
  queue : list nat;
  slots : list nat;
  next_id : nat;
}.

(** Modelled from the spec: the service as it starts, with no job.
    The service's code for it is missing. *)
Definition empty_orchestrator : Orchestrator :=
  {| jobs := ∅; queue := []; slots := []; next_id := 0 |}.

(** Modelled from the spec: [Submit(subjectRef) -> jobId] (section 4.4).
    The service's code for it is missing. *)
Definition Submit (c : Config) (subject : string) (o : Orchestrator)
    : Orchestrator * (ErrorKind + nat) :=
  if bool_decide (tableCap c ≤ size (jobs o)) then (o, inl CapacityExceeded)
  else
    let i := next_id o in
    ({| jobs := <[i := new_job i subject]> (jobs o);
        queue := queue o ++ [i];
        slots := slots o;
        next_id := S i |}, inr i).

(** Modelled from the spec: [GetStatus(jobId) -> Job].
    The service's code for it is missing. *)
Definition GetStatus (o : Orchestrator) (i : nat) : ErrorKind + Job :=
  match jobs o !! i with
  | None => inl NotFound
  | Some j => inr j
  end.

(** Modelled from the spec: [GetResult(jobId) -> ResultDocument].
    The service's code for it is missing. *)
Definition GetResult (o : Orchestrator) (i : nat) : ErrorKind + ResultDocument :=
  match jobs o !! i with
  | None => inl NotFound
  | Some j =>
      if bool_decide (phase j = Completed) then
        match result j with
        | Some d => inr d
        | None => inl NotReady
        end
      else inl NotReady
  end.

(** Modelled from the spec: [ListJobs() -> []Job].
    The service's code for it is missing. *)
Definition ListJobs (o : Orchestrator) : list Job := (map_to_list (jobs o)).*2.

(** Modelled from the spec: an id taken out of the queue or the slot table.
    The service's code for it is missing. *)
Definition remove (i : nat) (l : list nat) : list nat := filter (λ k, k ≠ i) l.

(** Modelled from the spec: the job's next state is stored; a job that
    left the active states gives its slot back, one that left Pending
    leaves the queue.
    The service's code for it is missing. *)
Definition store (o : Orchestrator) (j : Job) : Orchestrator :=
  {| jobs := <[id j := j]> (jobs o);
     queue := if bool_decide (phase j = Pending) then queue o else remove (id j) (queue o);
     slots := if active (phase j) then slots o else remove (id j) (slots o);
     next_id := next_id o |}.

(** Modelled from the spec: [Cancel(jobId)], idempotent, a no-op on a
    terminal or unknown job.
    The service's code for it is missing. *)
Definition Cancel (c : Config) (i : nat) (o : Orchestrator) : Orchestrator :=
  match jobs o !! i with
  | Some j => if terminal (phase j) then o else store o (job_step c j CancelRequested)
  | None => o
  end.

(** Modelled from the spec: a worker of the bounded pool takes the oldest
    pending job when a slot is free (section 4.4, concurrency policy).
    The service's code for it is missing. *)
Definition Admit (c : Config) (o : Orchestrator) : Orchestrator :=
  match queue o with
  | i :: rest =>
      if bool_decide (length (slots o) < poolSize c) then
        match jobs o !! i with
        | Some j =>
            {| jobs := <[i := job_step c j Dequeued]> (jobs o);
               queue := rest;
               slots := slots o ++ [i];
               next_id := next_id o |}
        | None => o
        end
      else o
  | [] => o
  end.

(** Modelled from the spec: a worker reports on the job in its slot; the
    state machine of that job takes the step.
    The service's code for it is missing. *)
Definition Worker (c : Config) (i : nat) (e : WorkerEvent) (o : Orchestrator)
    : Orchestrator :=
  if bool_decide (i ∈ slots o) then
    match jobs o !! i with
    | Some j => store o (job_step c j (Work e))
    | None => o
    end
  else o.

(** Modelled from the spec: everything that mutates the shared state;
    section 5 serialises these under one lock, so an execution is a
    sequence of them.
    The service's code for it is missing. *)
Inductive Event :=
| ESubmit (subject : string)
| ECancel (i : nat)
| EAdmit
| EWorker (i : nat) (e : WorkerEvent).

(** Modelled from the spec: the effect of one event on the shared state.
    The service's code for it is missing. *)
Definition apply (c : Config) (o : Orchestrator) (e : Event) : Orchestrator :=
  match e with
  | ESubmit s => (Submit c s o).1
  | ECancel i => Cancel c i o
  | EAdmit => Admit c o
  | EWorker i w => Worker c i w o
  end.

(** Modelled from the spec: the shared state after a sequence of events,
    from the start of the service.
    The service's code for it is missing. *)
Definition execute (c : Config) (es : list Event) : Orchestrator :=
  foldl (apply c) empty_orchestrator es.

(** The jobs that occupy Acquiring, Analyzing or Reporting. *)
Definition active_jobs (o : Orchestrator) : gmap nat Job :=
  filter (λ kv, active (phase kv.2) = true) (jobs o).

(** What holds of every job the state machine can produce. *)
Record job_ok (c : Config) (j : Job) : Prop := {
  ok_range : progressPercent j ≤ 100;
  ok_completed : phase j = Completed → is_Some (result j) ∧ progressPercent j = 100;
  ok_fatal : ∀ e, errorDetail j = Some (Fatal e) → phase j = Failed;
  ok_result : is_Some (result j) → phase j = Completed;
  ok_waiting : phase j = Pending ∨ phase j = Acquiring →
    progressPercent j = 0 ∧ phasesDone j = 0;
  ok_analyzing : phase j = Analyzing →
    phasesDone j < analysisPhases c
    ∧ progressPercent j = progress_after c (phasesDone j);
  ok_failed : phase j = Failed → ∃ e, errorDetail j = Some (Fatal e);
  ok_warning : ∀ l, errorDetail j = Some (Warning l) →
    l ≠ [] ∧ 0 < phasesDone j ∧ ∀ tag, tag ∈ l →
      ∃ r, r ∈ collected j ∧ phaseTag r = tag
           ∧ existsb failed_tool (toolOutcomes r) = true;
}.

(** What holds of the shared state after every event. *)
Record orch_inv (c : Config) (o : Orchestrator) : Prop := {
  inv_jobs : ∀ i j, jobs o !! i = Some j → id j = i ∧ i < next_id o ∧ job_ok c j;
  inv_slots_nodup : NoDup (slots o);
  inv_slots_bound : length (slots o) ≤ poolSize c;
  inv_slots : ∀ i, i ∈ slots o ↔ ∃ j, jobs o !! i = Some j ∧ active (phase j) = true;
  inv_queue : ∀ i, i ∈ queue o ↔ ∃ j, jobs o !! i = Some j ∧ phase j = Pending;
  inv_queue_sorted : StronglySorted lt (queue o);
}.

(** Sample runs. *)
Definition sample_config : Config :=
  {| firstPhase := {| specTag := "multi-tool"; specPolicy := BestEffort |};
     morePhases := [{| specTag := "advanced-yara"; specPolicy := AllMustSucceed |}];
     reportMandatory := false; poolSize := 2; tableCap := 16 |}.

Definition tool (name : string) (o : Outcome) : ToolOutcome :=
  {| toolName := name; outcome := o; rawLog := "" |}.

(** Scenario C of the specification: three tools, one fails. *)
Definition scenario_C : PhaseResult :=
  {| phaseTag := "multi-tool";
     toolOutcomes := [tool "binwalk" Failure; tool "foremost" Success;
                      tool "yara" Success] |}.

Definition yara_phase : PhaseResult :=
  {| phaseTag := "advanced-yara";
     toolOutcomes := [tool "yara" Success] |}.

(** Scenario D: one job, submitted, admitted, acquired and analysed ... *)
Definition until_analyzing : list Event :=
  [ESubmit "cirros-test"; EAdmit; EWorker 0 (AcquisitionDone true);
   EWorker 0 (PhaseDone scenario_C)].

(** ... and then taken to the end. *)
Definition until_completed : list Event :=
  until_analyzing ++ [EWorker 0 (PhaseDone yara_phase); EWorker 0 (ReportDone true)].

(** Scenario B: a first phase under AllMustSucceed with a tool that fails. *)
Definition strict_config : Config :=
  {| firstPhase := {| specTag := "multi-tool"; specPolicy := AllMustSucceed |};
     morePhases := [];
     reportMandatory := true; poolSize := 1; tableCap := 4 |}.

Definition until_tool_failure : list Event :=
  [ESubmit "cirros-test"; EAdmit; EWorker 0 (AcquisitionDone true);
   EWorker 0 (PhaseDone scenario_C)].

(** Scenario A: five submissions against a pool of two. *)
Definition burst : list Event :=
  [ESubmit "a"; ESubmit "b"; ESubmit "c"; ESubmit "d"; ESubmit "e";
   EAdmit; EAdmit; EAdmit].

End Pipeline.

(* ===================================================================== *)
(** ** Auxiliary notions for the properties of the report programs *)
(* ===================================================================== *)

Module Order.

(** The elements of a list in the order of their first appearance. *)
Definition first_seen {A} `{EqDecision A} (l : list A) : list A :=
  reverse (remove_dups (reverse l)).

End Order.

(* ===================================================================== *)
(** ** multi-tool-forensic.sh, tool 7: the custom memory analysis *)
(* ===================================================================== *)

(** The Python program of lines 262-331, for a dump file that can be
    opened and read ([except Exception] is the path of a file that
    cannot).  Python [bytes] are lists of numbers below 256. *)
Module Custom.
Import Py.

Definition bytes := list N.

(** [1024 * 1024], the size of the first read. *)
Definition MiB : nat := 1024 * 1024.
Arguments MiB : simpl never.

(** [b'\x7fELF'] *)
Definition ELF : bytes := [127; 69; 76; 70]%N.

(** [hex(i)]: [0x] and the lower-case hexadecimal digits of [i]. *)
Definition hex_digit (d : N) : char :=
  if (d <? 10)%N then (48 + d)%N else (87 + d)%N.

Fixpoint hex_digits (fuel : nat) (n : N) (acc : str) : str :=
  match fuel with
  | 0 => acc
  | S fuel' =>
      let acc' := hex_digit (n mod 16) :: acc in
      if (n / 16 =? 0)%N then acc' else hex_digits fuel' (n / 16) acc'
  end.

Definition hex (i : nat) : str :=
  u "0x" ++ hex_digits (S (N.size_nat (N.of_nat i))) (N.of_nat i) [].

(** Lines 279-281: [for i in range(len(data) - 4)] with the slice
    [data[i:i+4]]; an empty range when fewer than five bytes were read. *)
Definition elf_offsets (data : bytes) : list nat :=
  filter (λ i, take 4 (drop i data) = ELF) (seq 0 (length data - 4)).

Definition elf_headers (data : bytes) : list str := hex <$> elf_offsets data.

(** [32 <= byte <= 126] *)
Definition printable (byte : N) : bool := ((32 <=? byte) && (byte <=? 126))%N.

(** [str.lower] on a string of printable ASCII characters. *)
Definition lower_char (c : char) : char :=
  if ((65 <=? c) && (c <=? 90))%N then (c + 32)%N else c.

Definition lower (s : str) : str := lower_char <$> s.

(** [needle in hay] for strings. *)
Fixpoint starts_with (needle hay : str) : bool :=
  match needle, hay with
  | [], _ => true
  | _ :: _, [] => false
  | a :: needle', b :: hay' => (a =? b)%N && starts_with needle' hay'
  end.

Fixpoint contains (needle hay : str) : bool :=
  starts_with needle hay
  || match hay with
     | [] => false
     | _ :: hay' => contains needle hay'
     end.

Definition keywords : list str :=
  [u "process"; u "thread"; u "task"; u "pid"; u "uid"].

(** [any(keyword in string_val.lower() for keyword in [...])]; the bytes
    are printable ASCII, so [decode('ascii')] is the identity on them. *)
Definition has_keyword (current_string : bytes) : bool :=
  existsb (λ keyword, contains keyword (lower current_string)) keywords.

(** Lines 284-296, [for i, byte in enumerate(data)], with what is appended
    to [results['potential_strings']] left open as [entry]. *)
Section strings_loop.
Context {X : Type} (entry : nat → bytes → X).

Fixpoint strings_loop (i : nat) (rest current_string : bytes) (found : list X)
    : list X :=
  match rest with
  | [] => found
  | byte :: rest' =>
      if printable byte then
        strings_loop (S i) rest' (current_string ++ [byte]) found
      else
        strings_loop (S i) rest' []
          (if bool_decide (4 ≤ length current_string) && has_keyword current_string
           then found ++ [entry (i - length current_string) current_string]
           else found)
  end.
End strings_loop.

(** [f"{hex(i-len(current_string))}: {string_val}"] *)
Definition string_entry (offset : nat) (string_val : bytes) : str :=
  hex offset ++ u ": " ++ string_val.

Definition potential_strings (data : bytes) : list str :=
  strings_loop string_entry 0 data [] [].

(** The same loop, recording offset and text apart. *)
Definition string_hits (data : bytes) : list (nat * bytes) :=
  strings_loop pair 0 data [] [].

(** Lines 299-307: [range(0, min(1024*1024*10, size), 4096)], sixteen bytes
    read at each offset, more than eight of them non-zero. *)
Definition page_offsets (n : nat) : list nat :=
  (λ k, k * 4096) <$> seq 0 ((n + 4095) / 4096).

Definition non_zero (page_data : bytes) : nat :=
  length (filter (λ b, b ≠ 0%N) page_data).

Definition page_is_active (file : bytes) (offset : nat) : bool :=
  let page_data := take 16 (drop offset file) in
  bool_decide (page_data ≠ []) && bool_decide (8 < non_zero page_data).

Definition region_offsets (file : bytes) : list nat :=
  filter (λ offset, page_is_active file offset = true)
    (page_offsets ((MiB * 10) `min` length file)).

Definition memory_regions (file : bytes) : list str :=
  (λ offset, u "Active page at " ++ hex offset) <$> region_offsets file.

Record results := {
  r_elf_headers : list str;
  r_potential_strings : list str;
  r_memory_regions : list str;
  r_suspicious_patterns : list str;
}.

(** [analyze_memory_dump]: the first MiB for headers and strings, the
    first ten MiB for pages. *)
Definition analyze_memory_dump (file : bytes) : results :=
  let data := take MiB file in
  {| r_elf_headers := elf_headers data;
     r_potential_strings := potential_strings data;
     r_memory_regions := memory_regions file;
     r_suspicious_patterns := [] |}.

(** What is true of an entry [(offset, text)] of the strings scan over
    [data]: the text has at least four bytes, all printable, holds a
    keyword, stands in [data] at [offset], is followed there by a byte that
    is not printable and is not preceded by a printable byte. *)
Definition reported_string (data : bytes) (hit : nat * bytes) : Prop :=
  4 ≤ length hit.2
  ∧ Forall (λ b, printable b = true) hit.2
  ∧ has_keyword hit.2 = true
  ∧ take (length hit.2) (drop hit.1 data) = hit.2
  ∧ (∃ b, data !! (hit.1 + length hit.2) = Some b ∧ printable b = false)
  ∧ (hit.1 = 0 ∨ ∃ b, data !! (hit.1 - 1) = Some b ∧ printable b = false).

(** Sample data: a text between two zero bytes, then an ELF magic. *)
Definition sample_dump : bytes :=
  [0%N] ++ u "init Task: pid=1" ++ [0%N] ++ ELF ++ [1; 2; 3]%N.

End Custom.

(* ===================================================================== *)
(** ** src/utils/cn.ts *)
(* ===================================================================== *)

Module Cn.

(** [ClassValue].  [number] stands for JavaScript's numbers; an object is
    given by its entries in the order [Object.entries] lists them. *)
Inductive ClassValue (number : Type) :=
| Str (s : string)
| Num (x : number)
| Null
| Undefined
| Bool (b : bool)
| Obj (entries : list (string * bool))
| Arr (items : list (ClassValue number)).
Arguments Str {number} s.
Arguments Num {number} x.
Arguments Null {number}.
Arguments Undefined {number}.
Arguments Bool {number} b.
Arguments Obj {number} entries.
Arguments Arr {number} items.

(** [!cls]; [number_falsy] holds of [0], [-0] and [NaN]. *)
Definition falsy {number} (number_falsy : number → bool)
    (cls : ClassValue number) : bool :=
  match cls with
  | Str s => bool_decide (s = "")
  | Num x => number_falsy x
  | Null | Undefined => true
  | Bool b => negb b
  | Obj _ | Arr _ => false
  end.

(** [Array.prototype.join] on strings. *)
Fixpoint join (separator : string) (l : list string) : string :=
  match l with
  | [] => ""
  | x :: l' =>
      match l' with
      | [] => x
      | _ :: _ => x +:+ separator +:+ join separator l'
      end
  end.

(** What one turn of the loop pushes on [result]; for an array that is the
    one string [cn(...cls)]. *)
Fixpoint pushed {number} (number_falsy : number → bool)
    (cls : ClassValue number) : list string :=
  if falsy number_falsy cls then []
  else
    match cls with
    | Str s => [s]
    | Obj entries => fst <$> filter (λ entry, entry.2 = true) entries
    | Arr items =>
        [join " " ((fix each (l : list (ClassValue number)) : list string :=
                      match l with
                      | [] => []
                      | c :: l' => pushed number_falsy c ++ each l'
                      end) items)]
    | Num _ | Null | Undefined | Bool _ => []
    end.

(** [result] when the loop over [classes] is over. *)
Definition result {number} (number_falsy : number → bool)
    (classes : list (ClassValue number)) : list string :=
  flat_map (pushed number_falsy) classes.

Definition cn {number} (number_falsy : number → bool)
    (classes : list (ClassValue number)) : string :=
  join " " (result number_falsy classes).

End Cn.
(* ===================================================================== *)
(** * Properties *)
(* ===================================================================== *)

(** ** Ordered dictionaries *)

Section ordered_dict_facts.
Context {K V : Type} `{EqDecision K}.
Implicit Types (k : K) (d : list (K * V)).

Lemma od_get_set_eq k (v : V) d : Py.od_get k (Py.od_set k v d) = Some v.
Proof.
  induction d as [|[k' v'] d IH]; simpl.
  - by rewrite decide_True.
  - destruct (decide (k = k')) as [->|Hne]; simpl.
    + by rewrite decide_True.
    + by rewrite decide_False.
Qed.

Lemma od_get_set_ne k k' (v : V) d :
  k ≠ k' → Py.od_get k' (Py.od_set k v d) = Py.od_get k' d.
Proof.
  intros Hne. induction d as [|[k0 v0] d IH]; simpl.
  - rewrite decide_False; [done | congruence].
  - destruct (decide (k = k0)) as [->|Hk]; simpl.
    + rewrite !decide_False; [done | congruence | congruence].
    + destruct (decide (k' = k0)); [done | apply IH].
Qed.

Lemma od_mem_get k d :
  Py.od_mem k d = false ↔ Py.od_get k d = None.
Proof.
  unfold Py.od_mem. rewrite bool_decide_eq_false, <- eq_None_not_Some. done.
Qed.

End ordered_dict_facts.

Lemma od_sum_set (k : Py.str) (n : nat) (d : list (Py.str * nat)) :
  sum_list (Py.od_values (Py.od_set k n d)) + default 0 (Py.od_get k d)
  = sum_list (Py.od_values d) + n.
Proof.
  unfold Py.od_values. induction d as [|[k0 v0] d IH]; csimpl; [lia|].
  destruct (decide (k = k0)) as [->|Hk]; csimpl; lia.
Qed.

(** ** Python text primitives *)

Lemma split_space_1_spec (s : Py.str) :
  ((Py.SPACE ∉ s) ∧ Py.split_space_1 s = [s])
  ∨ ∃ a b, s = a ++ Py.SPACE :: b ∧ (Py.SPACE ∉ a) ∧ Py.split_space_1 s = [a; b].
Proof.
  induction s as [|c s IH].
  - left. split; [apply not_elem_of_nil | done].
  - cbn [Py.split_space_1]. destruct (N.eqb_spec c Py.SPACE) as [->|Hc].
    + right. exists [], s. split; [done|]. split; [apply not_elem_of_nil | done].
    + destruct IH as [[Hno ->] | (a & b & -> & Hno & ->)].
      * left. split; [|done]. rewrite not_elem_of_cons. by split; [congruence|].
      * right. exists (c :: a), b. split; [done|]. split; [|done].
        rewrite not_elem_of_cons. by split; [congruence|].
Qed.

(** ** advanced-yara-tool.sh: the report program *)

Section yara_report.
Import Py Yara.

Lemma infos_of_snoc r r' m ps :
  infos_of r (ps ++ [(r', m)])
  = if decide (r' = r) then infos_of r ps ++ [m] else infos_of r ps.
Proof.
  unfold infos_of. rewrite filter_app, fmap_app.
  rewrite filter_cons, filter_nil. simpl.
  destruct (decide (r' = r)); simpl; [done | by rewrite app_nil_r].
Qed.

Lemma loop_body_parse t line :
  loop_body t line =
  match parse_line line with
  | None => t
  | Some (rule_name, match_info) =>
      let t1 :=
        if negb (od_mem rule_name (matches t)) then
          {| matches := od_set rule_name [] (matches t);
             rule_counts := od_set rule_name 0 (rule_counts t) |}
        else t in
      {| matches :=
           od_set rule_name
             (default [] (od_get rule_name (matches t1)) ++ [match_info])
             (matches t1);
         rule_counts :=
           od_set rule_name
             (default 0 (od_get rule_name (rule_counts t1)) + 1)
             (rule_counts t1) |}
  end.
Proof.
  unfold loop_body, parse_line.
  destruct (bool_decide (strip line = [])); [done|].
  by destruct (bool_decide (2 ≤ length (split_space_1 (strip line)))).
Qed.

Lemma tables_inv_empty : tables_inv empty_tables [].
Proof. repeat split; intros; done. Qed.

Lemma tables_inv_step t ps line :
  tables_inv t ps →
  tables_inv (loop_body t line) (ps ++ option_list (parse_line line)).
Proof.
  intros (Hm & Hc & Hs). rewrite loop_body_parse.
  destruct (parse_line line) as [[r m]|]; simpl;
    [| rewrite app_nil_r; by repeat split].
  (* the tables after the initialisation of a new rule *)
  set (t1 := if negb (od_mem r (matches t)) then _ else t).
  assert (od_get r (matches t1) = Some (infos_of r ps)
          ∧ od_get r (rule_counts t1) = Some (length (infos_of r ps))
          ∧ (∀ r', r' ≠ r → od_get r' (matches t1) = od_get r' (matches t)
                            ∧ od_get r' (rule_counts t1) = od_get r' (rule_counts t))
          ∧ sum_list (od_values (rule_counts t1)) = length ps)
    as (Hm1 & Hc1 & Hne1 & Hs1).
  { subst t1. destruct (od_mem r (matches t)) eqn:E; simpl.
    - unfold od_mem in E. apply bool_decide_eq_true in E as [ms Hms].
      pose proof (Hm r) as Hr. rewrite Hms in Hr.
      case_bool_decide; [done|]. injection Hr as ->.
      repeat split; [done | by rewrite Hc, Hms | done].
    - apply od_mem_get in E. pose proof (Hm r) as Hr. rewrite E in Hr.
      case_bool_decide as Hnil; [|done]. rewrite Hnil.
      repeat split.
      + apply od_get_set_eq.
      + apply od_get_set_eq.
      + by apply od_get_set_ne.
      + by apply od_get_set_ne.
      + pose proof (od_sum_set r 0 (rule_counts t)) as Hsum.
        rewrite Hc, E in Hsum. simpl in Hsum. lia. }
  repeat split; simpl.
  - intros r'. rewrite infos_of_snoc, Hm1. simpl.
    destruct (decide (r = r')) as [<-|Hne].
    + rewrite od_get_set_eq. rewrite bool_decide_eq_false_2; [done|].
      by destruct (infos_of r ps).
    + rewrite od_get_set_ne by done.
      destruct (Hne1 r') as [-> _]; [done|]. apply Hm.
  - intros r'. rewrite Hm1, Hc1. simpl.
    destruct (decide (r = r')) as [<-|Hne].
    + rewrite !od_get_set_eq. simpl. rewrite length_app. simpl. done.
    + rewrite !od_get_set_ne by done.
      destruct (Hne1 r') as [-> ->]; [done|]. apply Hc.
  - rewrite Hc1. simpl. rewrite length_app. simpl.
    pose proof (od_sum_set r (length (infos_of r ps) + 1) (rule_counts t1)) as Hsum.
    rewrite Hc1 in Hsum. simpl in Hsum. lia.
Qed.

Lemma tables_inv_foldl lines : ∀ t ps,
  tables_inv t ps → tables_inv (foldl loop_body t lines) (ps ++ parsed lines).
Proof.
  induction lines as [|line lines IH]; intros t ps Ht; simpl.
  - unfold parsed. simpl. by rewrite app_nil_r.
  - apply (tables_inv_step _ _ line), IH in Ht.
    unfold parsed in *. simpl.
    destruct (parse_line line) as [p|]; simpl in *.
    + by rewrite <- app_assoc in Ht.
    + by rewrite app_nil_r in Ht.
Qed.

Lemma read_matches_inv lines : tables_inv (read_matches lines) (parsed lines).
Proof. apply (tables_inv_foldl lines _ []), tables_inv_empty. Qed.

Lemma parse_line_Some line r m :
parse_line line = Some (r, m) ↔ strip line = r ++ SPACE :: m ∧ (SPACE ∉ r).
Proof.
unfold parse_line. case_bool_decide as Hnil.
- split; [done|]. intros [E _]. rewrite Hnil in E. by destruct r.
- destruct (split_space_1_spec (strip line))
    as [[Hno ->] | (a & b & Hs & Hno & ->)]; simpl.
  + split; [done|]. intros [E _]. exfalso. apply Hno. rewrite E.
    apply elem_of_app. right. left.
  + split.
    * by intros [= <- <-].
    * intros [E Hr]. rewrite Hs in E. clear Hs Hnil.
      revert r E Hr. induction a as [|x a IHa]; intros [|y r] E Hr; simpl in *.
      -- by injection E as <-.
      -- injection E as <- _. exfalso. apply Hr. left.
      -- injection E as -> _. exfalso. apply Hno. left.
      -- injection E as <- E. apply not_elem_of_cons in Hr as [_ Hr].
         apply not_elem_of_cons in Hno as [_ Hno].
         specialize (IHa Hno r E Hr). by injection IHa as <- <-.
Qed.

Lemma parse_line_None line : parse_line line = None ↔ SPACE ∉ strip line.
Proof.
unfold parse_line. case_bool_decide as Hnil.
- rewrite Hnil. split; [intros _; apply not_elem_of_nil | done].
- destruct (split_space_1_spec (strip line))
    as [[Hno ->] | (a & b & Hs & Hno & ->)]; simpl; [done|].
  split; [done|]. intros Hn. exfalso. apply Hn. rewrite Hs.
  apply elem_of_app. right. left.
Qed.

Lemma od_keys_get {V} (k : str) (d : list (str * V)) :
  k ∈ od_keys d ↔ is_Some (od_get k d).
Proof.
  unfold od_keys. induction d as [|[k0 v0] d IH]; csimpl.
  - split; [by intros ?%elem_of_nil | by intros [? ?]].
  - rewrite elem_of_cons, IH.
    destruct (decide (k = k0)) as [->|Hne]; naive_solver.
Qed.

Lemma infos_of_elem r m ps : m ∈ infos_of r ps ↔ (r, m) ∈ ps.
Proof.
  unfold infos_of. rewrite list_elem_of_fmap. split.
  - intros ([r' m'] & -> & [Hr Hin]%list_elem_of_filter). simpl in Hr. by subst.
  - intros Hin. exists (r, m). split; [done|]. by apply list_elem_of_filter.
Qed.

Lemma parsed_elem r m lines :
  (r, m) ∈ parsed lines ↔ ∃ line, line ∈ lines ∧ parse_line line = Some (r, m).
Proof. unfold parsed. by rewrite list_elem_of_omap. Qed.

Lemma detailed_matches_get now p lines r :
  od_get r (detailed_matches (make_results now p lines))
  = if bool_decide (infos_of r (parsed lines) = []) then None
    else Some (infos_of r (parsed lines)).
Proof. destruct (read_matches_inv lines) as (Hm & _ & _). apply Hm. Qed.

Lemma rule_summary_get now p lines r :
  od_get r (rule_summary (make_results now p lines))
  = if bool_decide (infos_of r (parsed lines) = []) then None
    else Some (length (infos_of r (parsed lines))).
Proof.
  destruct (read_matches_inv lines) as (Hm & Hc & _). simpl.
  rewrite Hc, Hm. by case_bool_decide.
Qed.

Lemma rule_count_default now p lines r :
  default 0 (od_get r (rule_summary (make_results now p lines)))
  = length (infos_of r (parsed lines)).
Proof.
  rewrite rule_summary_get. case_bool_decide as Hnil; [by rewrite Hnil | done].
Qed.

Lemma infos_of_perm r ps1 ps2 : ps1 ≡ₚ ps2 → infos_of r ps1 ≡ₚ infos_of r ps2.
Proof. intros Hp. unfold infos_of. by rewrite Hp. Qed.

Lemma parsed_perm l1 l2 : l1 ≡ₚ l2 → parsed l1 ≡ₚ parsed l2.
Proof. intros Hp. unfold parsed. by rewrite Hp. Qed.

Lemma found_perm now1 now2 p1 p2 l1 l2 name :
  l1 ≡ₚ l2 →
  found name (rule_summary (make_results now1 p1 l1))
  = found name (rule_summary (make_results now2 p2 l2)).
Proof.
  intros Hp. unfold found. rewrite !rule_count_default.
  by rewrite (Permutation_length (infos_of_perm (u name) _ _ (parsed_perm _ _ Hp))).
Qed.

End yara_report.

Lemma total_is_number_of_kept_lines (now : Py.str) (p : Yara.params)
    (lines : list Py.str) :
  Yara.total_matches (Yara.make_results now p lines) = length (Yara.parsed lines)
  ∧ Yara.total_matches (Yara.make_results now p lines)
    = sum_list (Py.od_values (Yara.rule_summary (Yara.make_results now p lines))).
Proof.
  destruct (read_matches_inv lines) as (_ & _ & Hs). split; [exact Hs | reflexivity].
Qed.

(** C6: the total match count of the result document is the sum of the
    per-rule counters of its rule summary and nothing else; each counter is
    the number of match texts recorded for the rule, which is the number of
    kept output lines that start with the rule's name, so the total is the
    number of kept lines of the YARA output. *)
Theorem total_matches_is_sum_of_rule_counts (now : Py.str) (p : Yara.params)
    (lines : list Py.str) :
  Yara.total_matches (Yara.make_results now p lines)
  = sum_list (Py.od_values (Yara.rule_summary (Yara.make_results now p lines)))
  ∧ Yara.total_matches (Yara.make_results now p lines)
    = length (Yara.parsed lines)
  ∧ ∀ rule,
      Py.od_get rule (Yara.rule_summary (Yara.make_results now p lines))
      = length <$> Py.od_get rule (Yara.detailed_matches (Yara.make_results now p lines))
      ∧ default 0 (Py.od_get rule (Yara.rule_summary (Yara.make_results now p lines)))
        = length (Yara.infos_of rule (Yara.parsed lines)).
Proof.
  destruct (read_matches_inv lines) as (Hm & Hc & Hs).
  split; [reflexivity|]. split; [exact Hs|].
  intros rule. split; [apply Hc | apply rule_count_default].
Qed.

(** C7: as the code has it, a line is kept when, stripped of surrounding
    white space, it holds a space; the text before the first space is its
    rule name, the text after it the match.  Every kept line is recorded
    under its own rule name, whether or not the report program has a flag
    for that rule, and every key of [detailed_matches] is the rule name of
    some kept line; no category is made up. *)
Theorem every_match_kept_under_its_rule (now : Py.str) (p : Yara.params)
    (lines : list Py.str) (line rule info : Py.str) :
  line ∈ lines →
  Py.strip line = rule ++ Py.SPACE :: info →
  Py.SPACE ∉ rule →
  (∃ ms, Py.od_get rule (Yara.detailed_matches (Yara.make_results now p lines)) = Some ms
         ∧ info ∈ ms)
  ∧ ∀ k, k ∈ Py.od_keys (Yara.detailed_matches (Yara.make_results now p lines)) →
         ∃ line' m, line' ∈ lines ∧ Py.strip line' = k ++ Py.SPACE :: m
                    ∧ Py.SPACE ∉ k.
Proof.
  intros Hin Hstrip Hrule.
  assert (Yara.parse_line line = Some (rule, info)) as Hparse
    by (by apply parse_line_Some).
  assert ((rule, info) ∈ Yara.parsed lines) as Hps
    by (apply parsed_elem; eauto).
  apply infos_of_elem in Hps.
  split.
  - exists (Yara.infos_of rule (Yara.parsed lines)). split; [|done].
    rewrite detailed_matches_get. rewrite bool_decide_eq_false_2; [done|].
    intros E. rewrite E in Hps. by apply elem_of_nil in Hps.
  - intros k [ms Hk]%od_keys_get. rewrite detailed_matches_get in Hk.
    case_bool_decide as Hnil; [done|].
    destruct (Yara.infos_of k (Yara.parsed lines)) as [|m ms'] eqn:E; [done|].
    assert (m ∈ Yara.infos_of k (Yara.parsed lines)) as Hm by (rewrite E; left).
    apply infos_of_elem, parsed_elem in Hm as (line' & Hl & Hp).
    apply parse_line_Some in Hp as [? ?]. eauto.
Qed.

Lemma every_match_kept_under_its_rule_witness :
  ∃ ms, Py.od_get (Py.u "Command_History")
          (Yara.detailed_matches
             (Yara.make_results (Py.u "2025-01-01T12:00:00") Yara.sample_params
                Yara.unflagged_output)) = Some ms
        ∧ Py.u "./simple_dumps/test_cirros2.raw" ∈ ms.
Proof.
  refine (proj1 (every_match_kept_under_its_rule _ _ Yara.unflagged_output
                   (Py.u "Command_History ./simple_dumps/test_cirros2.raw")
                   _ _ _ _ _)).
  - left.
  - vm_compute. reflexivity.
  - intros Hin. vm_compute in Hin.
    repeat (apply elem_of_cons in Hin as [Hin|Hin]; [discriminate Hin|]).
    by apply elem_of_nil in Hin.
Defined.

(** C7 does not hold as stated: matches of a rule without a flag, and
    the string lines [yara -s] prints, end up under keys of their own and
    no [other] entry exists. *)
Lemma unflagged_match_not_under_other :
  Yara.detailed_matches
    (Yara.make_results (Py.u "2025-01-01T12:00:00") Yara.sample_params
       Yara.unflagged_output)
  = [(Py.u "Command_History", [Py.u "./simple_dumps/test_cirros2.raw"]);
     (Py.u "0x2a:$sudo_cmd:", [Py.u "sudo"])]
  ∧ Py.od_get (Py.u "other")
      (Yara.detailed_matches
         (Yara.make_results (Py.u "2025-01-01T12:00:00") Yara.sample_params
            Yara.unflagged_output)) = None
  ∧ (Py.u "Command_History" ∉ (Py.u <$> Yara.flagged_rules))
  ∧ Yara.key_findings
      (Yara.make_results (Py.u "2025-01-01T12:00:00") Yara.sample_params
         Yara.unflagged_output)
    = Yara.Build_key_findings_t false false false false false false.
Proof.
  split; [vm_compute; reflexivity|].
  split; [vm_compute; reflexivity|].
  split; [|vm_compute; reflexivity].
  intros Hin. vm_compute in Hin.
  repeat (apply elem_of_cons in Hin as [Hin|Hin]; [discriminate Hin|]).
  by apply elem_of_nil in Hin.
Qed.

(** ** The two scripts *)

Section scripts.
Import Sh.

Lemma guard_rejects w script args example s :
  nth 0 args "" = "" ∨ is_file w (nth 0 args "") = false →
  dump_file_guard w script args example s
  = Exits 1 {| trace := trace s ++
                 [Echo ("Usage: " +:+ script +:+ " <memory_dump_file>");
                  Echo ("Example: " +:+ script +:+ " " +:+ example)];
               elapsed := elapsed s |}.
Proof.
  intros Hbad. unfold dump_file_guard.
  assert (bool_decide (nth 0 args "" = "") || negb (is_file w (nth 0 args "")) = true)
    as ->.
  { destruct Hbad as [-> | ->]; [done|]. apply orb_true_r. }
  unfold mbind, sh_bind, emit, exit. simpl. by rewrite <- app_assoc.
Qed.

Lemma guard_accepts w script args example s :
  nth 0 args "" ≠ "" → is_file w (nth 0 args "") = true →
  dump_file_guard w script args example s = Returns (nth 0 args "") s.
Proof.
  intros Hne Hf. unfold dump_file_guard.
  rewrite bool_decide_eq_false_2, Hf by done. done.
Qed.

Lemma exec_to_spec w file argv s :
  exec_to w file argv s =
  match runs_for (behaviour w argv) with
  | Some d => Returns (exit_status (behaviour w argv))
                {| trace := trace s ++ [WriteFile file; Exec argv];
                   elapsed := elapsed s + d |}
  | None => Blocks {| trace := trace s ++ [WriteFile file; Exec argv];
                      elapsed := elapsed s |}
  end.
Proof.
  unfold exec_to, mbind, sh_bind, emit, exec. simpl.
  rewrite <- app_assoc. simpl. by destruct (runs_for (behaviour w argv)).
Qed.
End scripts.

(** C10: when the dump-file argument is missing, empty or not an existing
    regular file, either script prints its two usage lines and leaves with
    status 1: no directory is made, no file written, no tool started and no
    JSON printed. *)
Theorem bad_dump_file_argument_exits_1 (w : Sh.world) (script : string)
    (args : list string) :
  nth 0 args "" = "" ∨ Sh.is_file w (nth 0 args "") = false →
  Sh.run (MultiTool.script w script args)
  = Sh.Finished 1
      {| Sh.trace :=
           [Sh.Echo ("Usage: " +:+ script +:+ " <memory_dump_file>");
            Sh.Echo ("Example: " +:+ script +:+ " ./api_dumps/instance.dump")];
         Sh.elapsed := 0 |}
  ∧ Sh.run (YaraScript.script w script args)
    = Sh.Finished 1
        {| Sh.trace :=
             [Sh.Echo ("Usage: " +:+ script +:+ " <memory_dump_file>");
              Sh.Echo ("Example: " +:+ script +:+ " ./simple_dumps/test_cirros2.raw")];
           Sh.elapsed := 0 |}
  ∧ ∀ s, (Sh.run (MultiTool.script w script args) = Sh.Finished 1 s
          ∨ Sh.run (YaraScript.script w script args) = Sh.Finished 1 s) →
         filter (λ e, Sh.is_work e = true) (Sh.trace s) = [].
Proof.
  intros Hbad.
  assert (Sh.run (MultiTool.script w script args)
          = Sh.Finished 1
              {| Sh.trace :=
                   [Sh.Echo ("Usage: " +:+ script +:+ " <memory_dump_file>");
                    Sh.Echo ("Example: " +:+ script +:+ " ./api_dumps/instance.dump")];
                 Sh.elapsed := 0 |}) as Hm.
  { unfold Sh.run, MultiTool.script, mbind, Sh.sh_bind at 1.
    by rewrite (guard_rejects _ _ _ _ _ Hbad). }
  assert (Sh.run (YaraScript.script w script args)
          = Sh.Finished 1
              {| Sh.trace :=
                   [Sh.Echo ("Usage: " +:+ script +:+ " <memory_dump_file>");
                    Sh.Echo ("Example: " +:+ script +:+ " ./simple_dumps/test_cirros2.raw")];
                 Sh.elapsed := 0 |}) as Hy.
  { unfold Sh.run, YaraScript.script, mbind, Sh.sh_bind at 1.
    by rewrite (guard_rejects _ _ _ _ _ Hbad). }
  split; [exact Hm|]. split; [exact Hy|].
  intros s [Hs|Hs].
  - rewrite Hm in Hs. injection Hs as <-. simpl. by rewrite !filter_cons.
  - rewrite Hy in Hs. injection Hs as <-. simpl. by rewrite !filter_cons.
Qed.

Lemma bad_dump_file_argument_exits_1_witness :
  Sh.is_file MultiTool.empty_disk (nth 0 ["./api_dumps/missing.dump"] "") = false
  ∧ Sh.run (MultiTool.script MultiTool.empty_disk "./multi-tool-forensic.sh"
              ["./api_dumps/missing.dump"])
    = Sh.Finished 1
        {| Sh.trace :=
             [Sh.Echo "Usage: ./multi-tool-forensic.sh <memory_dump_file>";
              Sh.Echo "Example: ./multi-tool-forensic.sh ./api_dumps/instance.dump"];
           Sh.elapsed := 0 |}.
Proof.
  split; [reflexivity|].
  exact (proj1 (bad_dump_file_argument_exits_1 MultiTool.empty_disk
                  "./multi-tool-forensic.sh" ["./api_dumps/missing.dump"]
                  (or_intror eq_refl))).
Defined.

(** C2: as the code has it, the binwalk and yara steps start their tool in
    the foreground with no timeout.  The step returns exactly when the
    process exits on its own, after the process's whole running time and
    whatever its exit status; if the process never exits the step never
    returns.  Nothing is killed and no outcome is recorded. *)
Theorem tool_steps_wait_for_the_tool (w : Sh.world) (DUMP_FILE ANALYSIS_DIR : string)
    (s : Sh.state) :
  Sh.command_v w "binwalk" = true →
  Sh.command_v w "yara" = true →
  MultiTool.binwalk_step w DUMP_FILE ANALYSIS_DIR s
  = match Sh.runs_for (Sh.behaviour w (MultiTool.binwalk_argv DUMP_FILE ANALYSIS_DIR)) with
    | Some d =>
        Sh.Returns tt
          {| Sh.trace := Sh.trace s ++
               [Sh.WriteFile (ANALYSIS_DIR +:+ "/binwalk_analysis.txt");
                Sh.Exec (MultiTool.binwalk_argv DUMP_FILE ANALYSIS_DIR)];
             Sh.elapsed := Sh.elapsed s + d |}
    | None =>
        Sh.Blocks
          {| Sh.trace := Sh.trace s ++
               [Sh.WriteFile (ANALYSIS_DIR +:+ "/binwalk_analysis.txt");
                Sh.Exec (MultiTool.binwalk_argv DUMP_FILE ANALYSIS_DIR)];
             Sh.elapsed := Sh.elapsed s |}
    end
  ∧ MultiTool.yara_step w DUMP_FILE ANALYSIS_DIR s
    = match Sh.runs_for (Sh.behaviour w (MultiTool.yara_argv DUMP_FILE ANALYSIS_DIR)) with
      | Some d =>
          Sh.Returns tt
            {| Sh.trace := Sh.trace s ++
                 [Sh.WriteFile (ANALYSIS_DIR +:+ "/memory_analysis.yar");
                  Sh.WriteFile (ANALYSIS_DIR +:+ "/yara_matches.txt");
                  Sh.Exec (MultiTool.yara_argv DUMP_FILE ANALYSIS_DIR)];
               Sh.elapsed := Sh.elapsed s + d |}
      | None =>
          Sh.Blocks
            {| Sh.trace := Sh.trace s ++
                 [Sh.WriteFile (ANALYSIS_DIR +:+ "/memory_analysis.yar");
                  Sh.WriteFile (ANALYSIS_DIR +:+ "/yara_matches.txt");
                  Sh.Exec (MultiTool.yara_argv DUMP_FILE ANALYSIS_DIR)];
               Sh.elapsed := Sh.elapsed s |}
      end.
Proof.
  intros Hb Hy. unfold MultiTool.binwalk_argv, MultiTool.yara_argv. split.
  - unfold MultiTool.binwalk_step. rewrite Hb.
    unfold mbind, Sh.sh_bind. rewrite exec_to_spec.
    by destruct (Sh.runs_for _).
  - unfold MultiTool.yara_step. rewrite Hy.
    unfold mbind, Sh.sh_bind. unfold Sh.emit at 1. rewrite exec_to_spec. simpl.
    rewrite <- app_assoc. simpl. by destruct (Sh.runs_for _).
Qed.

Lemma tool_steps_wait_for_the_tool_witness :
  MultiTool.binwalk_step (MultiTool.machine "binwalk" MultiTool.one_hour)
    "./api_dumps/instance.dump" "./multi_tool_analysis_20250101_120000" Sh.start
  = Sh.Returns tt
      {| Sh.trace :=
           [Sh.WriteFile "./multi_tool_analysis_20250101_120000/binwalk_analysis.txt";
            Sh.Exec (MultiTool.binwalk_argv "./api_dumps/instance.dump"
                       "./multi_tool_analysis_20250101_120000")];
         Sh.elapsed := 3600 |}.
Proof.
  exact (proj1 (tool_steps_wait_for_the_tool
                  (MultiTool.machine "binwalk" MultiTool.one_hour)
                  "./api_dumps/instance.dump" "./multi_tool_analysis_20250101_120000"
                  Sh.start eq_refl eq_refl)).
Defined.

(** C2 does not hold as stated: with a binwalk that never exits the
    script stays in the binwalk step for ever (no kill, no Failure outcome,
    no later step); with a yara that takes an hour the script waits the
    hour and then finishes normally with status 0. *)
Lemma tool_without_timeout_blocks_script :
  Sh.run (MultiTool.script (MultiTool.machine "binwalk" MultiTool.never_exits)
            "./multi-tool-forensic.sh" ["./api_dumps/instance.dump"])
  = Sh.Hangs
      {| Sh.trace :=
           [Sh.Mkdir "./multi_tool_analysis_20250101_120000";
            Sh.WriteFile "./multi_tool_analysis_20250101_120000/multi_tool_results.json";
            Sh.WriteFile "./multi_tool_analysis_20250101_120000/binwalk_analysis.txt";
            Sh.Exec (MultiTool.binwalk_argv "./api_dumps/instance.dump"
                       "./multi_tool_analysis_20250101_120000")];
         Sh.elapsed := 0 |}
  ∧ ∃ s, Sh.run (MultiTool.script (MultiTool.machine "yara" MultiTool.one_hour)
                   "./multi-tool-forensic.sh" ["./api_dumps/instance.dump"])
         = Sh.Finished 0 s
         ∧ Sh.elapsed s = 3600
         ∧ last (Sh.trace s) = Some (Sh.Echo Sh.JSON_OUTPUT_END).
Proof.
  split; [vm_compute; reflexivity|].
  eexists. split; [vm_compute; reflexivity|].
  split; vm_compute; reflexivity.
Qed.

(** ** The job state machine *)

Section job_state_machine.
Import Pipeline.
Context (c : Config).

Lemma progress_after_mono n m : n ≤ m → progress_after c n ≤ progress_after c m.
Proof.
  intros Hnm. unfold progress_after. apply Nat.add_le_mono_l.
  apply Nat.Div0.div_le_mono. apply Nat.mul_le_mono_l, Hnm.
Qed.

Lemma progress_after_bound n : n ≤ analysisPhases c → progress_after c n ≤ ANALYZED.
Proof.
  intros Hn. unfold progress_after, ACQUIRED, ANALYZED, analysisPhases in *.
  simpl Nat.sub.
  assert (50 * n / S (length (morePhases c)) ≤ 50); [|lia].
  transitivity (50 * S (length (morePhases c)) / S (length (morePhases c))).
  - apply Nat.Div0.div_le_mono. lia.
  - rewrite Nat.div_mul; lia.
Qed.

Lemma progress_after_0 : progress_after c 0 = ACQUIRED.
Proof.
  unfold progress_after. rewrite Nat.mul_0_r, Nat.Div0.div_0_l. apply Nat.add_0_r.
Qed.

Lemma job_ok_new i subject : job_ok c (new_job i subject).
Proof.
  split; simpl; try done; try lia; by intros [? ?].
Qed.

Lemma job_ok_fail j e : job_ok c j → job_ok c (fail_with j e).
Proof.
  intros [Hr _ _ _ _ _ _ _]. split; simpl; try done.
  - by intros [|].
  - intros _. by exists e.
Qed.

Lemma job_ok_phase_done j r :
  job_ok c j → phase j = Analyzing → job_ok c (phase_done c j r).
Proof.
  intros Hok Ha. unfold phase_done.
  destruct (policy_satisfied _ _); [|by apply job_ok_fail].
  destruct Hok as [Hr Hc He Hres Hw Han Hfl Hwn].
  destruct (Han Ha) as [Hlt Hp].
  pose proof (progress_after_bound (S (phasesDone j)) ltac:(lia)) as Hb.
  unfold ANALYZED in Hb.
  split; simpl.
  - lia.
  - by case_bool_decide.
  - intros e. destruct (fell_short _ r); [done|].
    intros Hs. apply He in Hs. congruence.
  - intros Hs. apply Hres in Hs. congruence.
  - case_bool_decide; by intros [|].
  - case_bool_decide; [done|]. intros _. split; [lia | done].
  - by case_bool_decide.
  - intros l. destruct (fell_short _ r) eqn:Hshort.
    + intros [= <-]. split; [by destruct (shortfall_of j)|]. split; [lia|].
      intros tag [Hold|Hnew]%elem_of_app.
      2: { apply list_elem_of_singleton in Hnew as ->.
           exists r. split; [apply elem_of_app; right; by left|]. split; [done|].
           unfold fell_short in Hshort. by destruct (specPolicy _). }
      unfold shortfall_of in Hold.
      destruct (errorDetail j) as [[e|l]|] eqn:E;
        [by apply elem_of_nil in Hold| |by apply elem_of_nil in Hold].
      destruct (Hwn l eq_refl) as (_ & _ & Hall).
      destruct (Hall tag Hold) as (r0 & Hin & Htag & Hfailed).
      exists r0. split; [|done]. apply elem_of_app. by left.
    + intros Hl. destruct (Hwn l Hl) as (Hne & _ & Hall).
      split; [done|]. split; [lia|].
      intros tag Htag. destruct (Hall tag Htag) as (r0 & Hin & Hrest).
      exists r0. split; [|done]. apply elem_of_app. by left.
Qed.

Lemma job_ok_report_done j ok :
  job_ok c j → phase j = Reporting → job_ok c (report_done c j ok).
Proof.
  intros Hok Hrep. unfold report_done.
  destruct (negb ok && reportMandatory c); [by apply job_ok_fail|].
  destruct Hok as [Hr Hc He Hres Hw Han Hfl Hwn].
  split; simpl; try done.
  - intros e Hs. apply He in Hs. congruence.
  - by intros [|].
Qed.

Lemma job_ok_move j p pct label :
  job_ok c j → phase j ≠ Completed → phase j ≠ Failed →
  p = Acquiring ∧ pct = 0 ∧ phasesDone j = 0
  ∨ p = Cancelled ∧ pct = progressPercent j
  ∨ p = Analyzing ∧ pct = ACQUIRED ∧ phasesDone j = 0 →
  job_ok c (move_to j p pct label).
Proof.
  intros [Hr Hc He Hres Hw Han Hfl Hwn] Hnc Hnf Hcase.
  split; simpl.
  - destruct Hcase as [(_ & -> & _)|[[_ ->]|(_ & -> & _)]];
      [lia | done | unfold ACQUIRED; lia].
  - destruct Hcase as [(-> & _)|[[-> _]|(-> & _)]]; done.
  - intros e Hs. by apply He in Hs.
  - intros Hs. by apply Hres in Hs.
  - destruct Hcase as [(-> & -> & ->)|[[-> _]|(-> & _)]];
      [done | by intros [|] | by intros [|]].
  - destruct Hcase as [(-> & _)|[[-> _]|(-> & -> & H0)]]; try done.
    intros _. rewrite H0. split; [unfold analysisPhases; lia | by rewrite progress_after_0].
  - destruct Hcase as [(-> & _)|[[-> _]|(-> & _)]]; done.
  - done.
Qed.

Lemma job_ok_step j e : job_ok c j → job_ok c (job_step c j e).
Proof.
  intros Hok. pose proof Hok as [Hr Hc He Hres Hw Han Hfl Hwn].
  unfold job_step.
  destruct (phase j) eqn:Hp, e as [|[[|]|r|ok]|]; try done.
  all: try (apply job_ok_fail; done).
  all: try (apply job_ok_phase_done; done).
  all: try (apply job_ok_report_done; done).
  all: apply job_ok_move; try done; try congruence.
  all: try (right; left; done).
  - left. destruct (Hw (or_introl eq_refl)) as [-> ->]. done.
  - right. right. destruct (Hw (or_intror eq_refl)) as [_ ->]. done.
Qed.

Lemma job_step_progress j e :
  job_ok c j → progressPercent j ≤ progressPercent (job_step c j e).
Proof.
  intros [Hr Hc He Hres Hw Han Hfl Hwn]. unfold job_step.
  destruct (phase j) eqn:Hp, e as [|[[|]|r|ok]|]; simpl; try done.
  - destruct (Hw (or_intror eq_refl)) as [-> _]. lia.
  - unfold phase_done. destruct (policy_satisfied _ _); simpl; [|done].
    destruct (Han eq_refl) as [_ ->]. apply progress_after_mono. lia.
  - unfold report_done. by destruct (negb ok && reportMandatory c).
Qed.

Lemma job_step_id j e : id (job_step c j e) = id j.
Proof.
  unfold job_step, phase_done, report_done.
  destruct (phase j), e as [|[[|]|r|ok]|]; simpl; try done.
  - by destruct (policy_satisfied _ _).
  - by destruct (negb ok && reportMandatory c).
Qed.

Lemma observed_ok j es : job_ok c j → Forall (job_ok c) (observed c j es).
Proof.
  revert j. induction es as [|e es IH]; intros j Hok; simpl.
  - by constructor.
  - constructor; [done|]. by apply IH, job_ok_step.
Qed.

Lemma observed_head j es : observed c j es !! 0 = Some j.
Proof. by destruct es. Qed.

Lemma observed_monotone j es n j1 j2 :
  job_ok c j →
  observed c j es !! n = Some j1 → observed c j es !! S n = Some j2 →
  progressPercent j1 ≤ progressPercent j2.
Proof.
  revert j n. induction es as [|e es IH]; intros j n Hok H1 H2; simpl in *.
  - by destruct n.
  - destruct n as [|n]; simpl in *.
    + injection H1 as <-. rewrite observed_head in H2. injection H2 as <-.
      by apply job_step_progress.
    + eapply IH; [|done..]. by apply job_ok_step.
Qed.

End job_state_machine.



(** ** The orchestrator *)

Lemma StronglySorted_filter {A} (R : relation A) (P : A → Prop)
    `{∀ x, Decision (P x)} (l : list A) :
  StronglySorted R l → StronglySorted R (filter P l).
Proof.
  induction l as [|x l IH]; [done|].
  rewrite StronglySorted_cons. intros [Hx Hl]. rewrite filter_cons.
  destruct (decide (P x)); [|by apply IH].
  apply StronglySorted_cons. split; [|by apply IH].
  apply Forall_forall. intros y [_ Hy]%list_elem_of_filter.
  by eapply Forall_forall in Hx.
Qed.

Lemma StronglySorted_lt_NoDup (l : list nat) : StronglySorted lt l → NoDup l.
Proof.
  induction l as [|x l IH]; [constructor|].
  rewrite StronglySorted_cons. intros [Hx Hl]. constructor; [|by apply IH].
  intros Hin. eapply Forall_forall in Hx; [|done]. lia.
Qed.

Section orchestrator.
Import Pipeline.
Context (c : Config).

Lemma job_step_cancel_phase j :
  terminal (phase j) = false → phase (job_step c j CancelRequested) = Cancelled.
Proof. unfold job_step. by destruct (phase j). Qed.

Lemma job_step_dequeued_phase j :
  phase j = Pending → phase (job_step c j Dequeued) = Acquiring.
Proof. unfold job_step. by intros ->. Qed.

Lemma job_step_work_phase j e :
  active (phase j) = true → phase (job_step c j (Work e)) ≠ Pending.
Proof.
  unfold job_step, phase_done, report_done.
  destruct (phase j) eqn:Hp, e as [[|]|r|ok]; simpl; try done; try congruence.
  - destruct (policy_satisfied _ _); simpl; [by case_bool_decide | done].
  - by destruct (negb ok && reportMandatory c).
Qed.

Lemma orch_inv_empty : orch_inv c empty_orchestrator.
Proof.
  split; simpl.
  - intros i j. by rewrite lookup_empty.
  - constructor.
  - lia.
  - intros i. split; [by intros ?%elem_of_nil|]. intros (j & Hj & _).
    by rewrite lookup_empty in Hj.
  - intros i. split; [by intros ?%elem_of_nil|]. intros (j & Hj & _).
    by rewrite lookup_empty in Hj.
  - constructor.
Qed.

Lemma orch_inv_submit subject o :
  orch_inv c o → orch_inv c (Submit c subject o).1.
Proof.
  intros [Hjobs Hnd Hb Hs Hq Hsort]. unfold Submit.
  case_bool_decide; [done|]. simpl.
  assert (jobs o !! next_id o = None) as Hfresh.
  { destruct (jobs o !! next_id o) as [j|] eqn:E; [|done].
    apply Hjobs in E as (_ & Hlt & _). lia. }
  assert (∀ i j, jobs o !! i = Some j → i ≠ next_id o) as Hold.
  { intros i j Hi ->. congruence. }
  split; simpl.
  - intros i j. destruct (decide (i = next_id o)) as [->|Hne].
    + rewrite lookup_insert_eq. intros [= <-]. simpl.
      split; [done|]. split; [lia | apply job_ok_new].
    + rewrite lookup_insert_ne by done. intros Hi.
      apply Hjobs in Hi as (? & ? & ?). split; [done|]. split; [lia | done].
  - done.
  - done.
  - intros i. rewrite Hs. split; intros (j & Hj & Ha).
    + exists j. split; [|done]. rewrite lookup_insert_ne; [done|].
      intros <-. congruence.
    + destruct (decide (i = next_id o)) as [->|Hne].
      * rewrite lookup_insert_eq in Hj. by injection Hj as <-.
      * rewrite lookup_insert_ne in Hj by done. eauto.
  - intros i. rewrite elem_of_app, list_elem_of_singleton, Hq.
    split.
    + intros [(j & Hj & Hp) | ->].
      * exists j. split; [|done]. rewrite lookup_insert_ne; [done|].
        intros <-. congruence.
      * exists (new_job (next_id o) subject). by rewrite lookup_insert_eq.
    + intros (j & Hj & Hp). destruct (decide (i = next_id o)) as [->|Hne]; [by right|].
      rewrite lookup_insert_ne in Hj by done. left. eauto.
  - apply StronglySorted_app_2; [|done|repeat constructor].
    intros x1 x2 (j & Hj & _)%Hq ->%list_elem_of_singleton.
    by apply Hjobs in Hj as (_ & Hlt & _).
Qed.

Lemma orch_inv_store o i j j' :
  orch_inv c o → jobs o !! i = Some j →
  id j' = i → job_ok c j' → phase j' ≠ Pending →
  (active (phase j') = true → i ∈ slots o) →
  orch_inv c (store o j').
Proof.
  intros [Hjobs Hnd Hb Hs Hq Hsort] Hi Hid Hok Hnp Hact.
  unfold store, remove. rewrite Hid, bool_decide_eq_false_2 by done.
  split; simpl.
  - intros k jk. destruct (decide (k = i)) as [->|Hne].
    + rewrite lookup_insert_eq. intros [= <-].
      apply Hjobs in Hi as (_ & ? & _). done.
    + rewrite lookup_insert_ne by done. apply Hjobs.
  - destruct (active (phase j')); [done | by apply NoDup_filter].
  - destruct (active (phase j')); [done|].
    etransitivity; [apply length_filter | done].
  - intros k. destruct (active (phase j')) eqn:Ha.
    + destruct (decide (k = i)) as [->|Hne].
      * rewrite lookup_insert_eq. split; [eauto | intros _; by apply Hact].
      * rewrite lookup_insert_ne by done. apply Hs.
    + rewrite list_elem_of_filter. destruct (decide (k = i)) as [->|Hne].
      * rewrite lookup_insert_eq. split; [by intros [? _]|].
        intros (jk & [= <-] & Hk). congruence.
      * rewrite lookup_insert_ne by done. rewrite Hs. naive_solver.
  - intros k. rewrite list_elem_of_filter. destruct (decide (k = i)) as [->|Hne].
    + rewrite lookup_insert_eq. split; [by intros [? _]|].
      intros (jk & [= <-] & Hk). congruence.
    + rewrite lookup_insert_ne by done. rewrite Hq. naive_solver.
  - by apply StronglySorted_filter.
Qed.

Lemma orch_inv_cancel i o : orch_inv c o → orch_inv c (Cancel c i o).
Proof.
  intros Hinv. unfold Cancel.
  destruct (jobs o !! i) as [j|] eqn:Hi; [|done].
  destruct (terminal (phase j)) eqn:Ht; [done|].
  pose proof (inv_jobs _ _ Hinv _ _ Hi) as (Hid & _ & Hok).
  pose proof (job_step_cancel_phase j Ht) as Hp.
  eapply orch_inv_store; [done | done | | | | ].
  - by rewrite job_step_id.
  - by apply job_ok_step.
  - by rewrite Hp.
  - by rewrite Hp.
Qed.

Lemma orch_inv_worker i e o : orch_inv c o → orch_inv c (Worker c i e o).
Proof.
  intros Hinv. unfold Worker.
  case_bool_decide as Hin; [|done].
  destruct (jobs o !! i) as [j|] eqn:Hi; [|done].
  pose proof (inv_jobs _ _ Hinv _ _ Hi) as (Hid & _ & Hok).
  apply (inv_slots _ _ Hinv) in Hin as Hin'. destruct Hin' as (j0 & Hj0 & Ha).
  assert (j0 = j) as -> by congruence.
  eapply orch_inv_store; [done | done | | | | ].
  - by rewrite job_step_id.
  - by apply job_ok_step.
  - by apply job_step_work_phase.
  - done.
Qed.

Lemma orch_inv_admit o : orch_inv c o → orch_inv c (Admit c o).
Proof.
  intros Hinv. pose proof Hinv as [Hjobs Hnd Hb Hs Hq Hsort]. unfold Admit.
  destruct (queue o) as [|i rest] eqn:Hqueue; [done|].
  case_bool_decide as Hfree; [|done].
  destruct (jobs o !! i) as [j|] eqn:Hi; [|done].
  assert (phase j = Pending) as Hpend.
  { destruct (proj1 (Hq i)) as (j0 & Hj0 & Hp); [left|]. congruence. }
  pose proof (Hjobs _ _ Hi) as (Hid & Hlt & Hok).
  pose proof (job_step_dequeued_phase j Hpend) as Hacq.
  apply StronglySorted_cons in Hsort as [Hhead Hrest].
  assert (i ∉ rest) as Hnotin.
  { intros Hin. eapply Forall_forall in Hhead; [|done]. lia. }
  assert (i ∉ slots o) as Hnoslot.
  { intros (j0 & Hj0 & Ha)%Hs. assert (j0 = j) as -> by congruence.
    by rewrite Hpend in Ha. }
  split; simpl.
  - intros k jk. destruct (decide (k = i)) as [->|Hne].
    + rewrite lookup_insert_eq. intros [= <-]. rewrite job_step_id.
      split; [done|]. split; [done | by apply job_ok_step].
    + rewrite lookup_insert_ne by done. apply Hjobs.
  - apply NoDup_app. split; [done|]. split; [|apply NoDup_singleton].
    intros x Hx ->%list_elem_of_singleton. done.
  - rewrite length_app. simpl. lia.
  - intros k. rewrite elem_of_app, list_elem_of_singleton.
    destruct (decide (k = i)) as [->|Hne].
    + rewrite lookup_insert_eq. split; [|by right].
      intros _. eexists. split; [done|]. by rewrite Hacq.
    + rewrite lookup_insert_ne by done. rewrite Hs. naive_solver.
  - intros k. destruct (decide (k = i)) as [->|Hne].
    + rewrite lookup_insert_eq. split; [done|].
      intros (jk & [= <-] & Hk). congruence.
    + rewrite lookup_insert_ne by done. rewrite <- Hq, elem_of_cons. naive_solver.
  - done.
Qed.

Lemma orch_inv_apply o e : orch_inv c o → orch_inv c (apply c o e).
Proof.
  destruct e; simpl.
  - apply orch_inv_submit.
  - apply orch_inv_cancel.
  - apply orch_inv_admit.
  - apply orch_inv_worker.
Qed.

Lemma orch_inv_foldl es : ∀ o, orch_inv c o → orch_inv c (foldl (apply c) o es).
Proof.
  induction es as [|e es IH]; intros o Ho; simpl; [done|].
  by apply IH, orch_inv_apply.
Qed.

Lemma orch_inv_execute es : orch_inv c (execute c es).
Proof. apply orch_inv_foldl, orch_inv_empty. Qed.

Lemma active_jobs_bound o : orch_inv c o → size (active_jobs o) ≤ poolSize c.
Proof.
  intros [Hjobs Hnd Hb Hs Hq Hsort].
  rewrite <- size_dom.
  transitivity (size (list_to_set (C := gset nat) (slots o))).
  - apply subseteq_size. intros i [j Hj]%elem_of_dom.
    unfold active_jobs in Hj. apply map_lookup_filter_Some in Hj as [Hj Ha].
    apply elem_of_list_to_set, Hs. eauto.
  - rewrite size_list_to_set by done. done.
Qed.

Lemma apply_job i j o e :
  orch_inv c o → jobs o !! i = Some j →
  jobs (apply c o e) !! i = Some j
  ∨ ∃ je, jobs (apply c o e) !! i = Some (job_step c j je).
Proof.
  intros Hinv Hi. pose proof (inv_jobs _ _ Hinv) as Hjobs.
  destruct e as [subject|k| |k w]; simpl.
  - unfold Submit. case_bool_decide; [by left|]. simpl. left.
    rewrite lookup_insert_ne; [done|]. intros <-.
    apply Hjobs in Hi as (_ & ? & _). lia.
  - unfold Cancel. destruct (jobs o !! k) as [jk|] eqn:Hk; [|by left].
    destruct (terminal (phase jk)); [by left|].
    unfold store. simpl. rewrite job_step_id.
    destruct (Hjobs _ _ Hk) as (-> & _ & _).
    destruct (decide (k = i)) as [->|Hne].
    + right. exists CancelRequested. rewrite lookup_insert_eq. congruence.
    + left. by rewrite lookup_insert_ne.
  - unfold Admit. destruct (queue o) as [|k rest]; [by left|].
    case_bool_decide; [|by left].
    destruct (jobs o !! k) as [jk|] eqn:Hk; [|by left]. simpl.
    destruct (decide (k = i)) as [->|Hne].
    + right. exists Dequeued. rewrite lookup_insert_eq. congruence.
    + left. by rewrite lookup_insert_ne.
  - unfold Worker. case_bool_decide; [|by left].
    destruct (jobs o !! k) as [jk|] eqn:Hk; [|by left].
    unfold store. simpl. rewrite job_step_id.
    destruct (Hjobs _ _ Hk) as (-> & _ & _).
    destruct (decide (k = i)) as [->|Hne].
    + right. exists (Work w). rewrite lookup_insert_eq. congruence.
    + left. by rewrite lookup_insert_ne.
Qed.

End orchestrator.

Lemma execute_snoc (c : Pipeline.Config) (es : list Pipeline.Event) (e : Pipeline.Event) :
  Pipeline.execute c (es ++ [e]) = Pipeline.apply c (Pipeline.execute c es) e.
Proof. unfold Pipeline.execute. apply foldl_snoc. Qed.

Lemma GetStatus_lookup (o : Pipeline.Orchestrator) (i : nat) (j : Pipeline.Job) :
  Pipeline.GetStatus o i = inr j ↔ Pipeline.jobs o !! i = Some j.
Proof.
  unfold Pipeline.GetStatus. destruct (Pipeline.jobs o !! i); naive_solver.
Qed.

(** C9: after any sequence of submissions, cancellations, admissions and
    worker reports, at most [poolSize] jobs are in Acquiring, Analyzing or
    Reporting.  The queue holds exactly the jobs whose status is Pending,
    in the order of their submission (job ids grow with each submission, a
    new job joins behind all waiting ones); an admission takes the head of
    the queue, the oldest waiting job, and happens only while a slot is
    free. *)
Theorem worker_pool_bound_and_fifo (c : Pipeline.Config) (es : list Pipeline.Event) :
  size (Pipeline.active_jobs (Pipeline.execute c es)) ≤ Pipeline.poolSize c
  ∧ (∀ i, i ∈ Pipeline.queue (Pipeline.execute c es) ↔
          ∃ j, Pipeline.GetStatus (Pipeline.execute c es) i = inr j
               ∧ Pipeline.phase j = Pipeline.Pending)
  ∧ StronglySorted lt (Pipeline.queue (Pipeline.execute c es))
  ∧ (∀ subject i,
       (Pipeline.Submit c subject (Pipeline.execute c es)).2 = inr i →
       Pipeline.queue (Pipeline.execute c (es ++ [Pipeline.ESubmit subject]))
       = Pipeline.queue (Pipeline.execute c es) ++ [i]
       ∧ ∀ k, k ∈ Pipeline.queue (Pipeline.execute c es) → k < i)
  ∧ (∀ i rest,
       Pipeline.queue (Pipeline.execute c es) = i :: rest →
       length (Pipeline.slots (Pipeline.execute c es)) < Pipeline.poolSize c →
       Pipeline.queue (Pipeline.execute c (es ++ [Pipeline.EAdmit])) = rest
       ∧ (∃ j, Pipeline.GetStatus (Pipeline.execute c (es ++ [Pipeline.EAdmit])) i = inr j
               ∧ Pipeline.phase j = Pipeline.Acquiring)
       ∧ ∀ k, k ∈ rest → i < k)
  ∧ (Pipeline.poolSize c ≤ length (Pipeline.slots (Pipeline.execute c es)) →
     Pipeline.execute c (es ++ [Pipeline.EAdmit]) = Pipeline.execute c es).
Proof.
  pose proof (orch_inv_execute c es) as Hinv.
  pose proof Hinv as [Hjobs Hnd Hb Hs Hq Hsort].
  split; [by apply active_jobs_bound|].
  split. { intros i. rewrite Hq. by setoid_rewrite GetStatus_lookup. }
  split; [done|].
  split.
  { intros subject i Hsub. rewrite execute_snoc. simpl.
    unfold Pipeline.Submit in *. case_bool_decide; [done|]. simpl in *.
    injection Hsub as <-. split; [done|].
    intros k (j & Hj & _)%Hq. by apply Hjobs in Hj as (_ & ? & _). }
  split.
  { intros i rest Hqueue Hfree. rewrite execute_snoc. simpl.
    unfold Pipeline.Admit. rewrite Hqueue.
    rewrite bool_decide_eq_true_2 by done.
    destruct (proj1 (Hq i)) as (j & Hj & Hp); [rewrite Hqueue; left|].
    rewrite Hj. simpl. split; [done|]. split.
    - exists (Pipeline.job_step c j Pipeline.Dequeued).
      unfold Pipeline.GetStatus. simpl. rewrite lookup_insert_eq.
      split; [done | by apply job_step_dequeued_phase].
    - rewrite Hqueue in Hsort. apply StronglySorted_cons in Hsort as [Hhead _].
      intros k Hk. by eapply Forall_forall in Hhead. }
  intros Hfull. rewrite execute_snoc. simpl. unfold Pipeline.Admit.
  destruct (Pipeline.queue _); [done|].
  rewrite bool_decide_eq_false_2; [done | lia].
Qed.

(** Scenario A: five submissions against a pool of two leave two jobs
    running and three waiting, oldest first. *)
Example burst_of_five :
  Pipeline.slots (Pipeline.execute Pipeline.sample_config Pipeline.burst) = [0; 1]
  ∧ Pipeline.queue (Pipeline.execute Pipeline.sample_config Pipeline.burst) = [2; 3; 4]
  ∧ size (Pipeline.active_jobs (Pipeline.execute Pipeline.sample_config Pipeline.burst)) = 2.
Proof. repeat split; vm_compute; reflexivity. Qed.



(** C4: for the table after any run: an id that is not in the table gets
    NotFound from both queries; a job that is in the table and has not
    reached Completed gets NotReady from GetResult; once it is Completed,
    GetResult returns the job's result document. *)
Theorem get_result_contract (c : Pipeline.Config) (es : list Pipeline.Event) (i : nat) :
  (Pipeline.jobs (Pipeline.execute c es) !! i = None →
     Pipeline.GetStatus (Pipeline.execute c es) i = inl Pipeline.NotFound
     ∧ Pipeline.GetResult (Pipeline.execute c es) i = inl Pipeline.NotFound)
  ∧ (∀ j, Pipeline.GetStatus (Pipeline.execute c es) i = inr j →
          Pipeline.phase j ≠ Pipeline.Completed →
          Pipeline.GetResult (Pipeline.execute c es) i = inl Pipeline.NotReady)
  ∧ (∀ j, Pipeline.GetStatus (Pipeline.execute c es) i = inr j →
          Pipeline.phase j = Pipeline.Completed →
          ∃ d, Pipeline.result j = Some d
               ∧ Pipeline.GetResult (Pipeline.execute c es) i = inr d)
  ∧ (Pipeline.next_id (Pipeline.execute c es) ≤ i →
     Pipeline.jobs (Pipeline.execute c es) !! i = None).
Proof.
  pose proof (orch_inv_execute c es) as [Hjobs _ _ _ _ _].
  split; [|split; [|split]].
  - intros Hnone. unfold Pipeline.GetStatus, Pipeline.GetResult. by rewrite Hnone.
  - intros j Hj%GetStatus_lookup Hnc. unfold Pipeline.GetResult.
    rewrite Hj. by rewrite bool_decide_eq_false_2.
  - intros j Hj%GetStatus_lookup Hc.
    destruct (Hjobs _ _ Hj) as (_ & _ & Hok).
    destruct (Pipeline.ok_completed _ _ Hok Hc) as [[d Hd] _].
    exists d. split; [done|]. unfold Pipeline.GetResult.
    rewrite Hj. by rewrite bool_decide_eq_true_2, Hd.
  - intros Hge. destruct (Pipeline.jobs _ !! i) as [j|] eqn:E; [|done].
    apply Hjobs in E as (_ & ? & _). lia.
Qed.

(** Scenario D: the same query before and after completion. *)
Example scenario_D :
  (∃ j, Pipeline.GetStatus (Pipeline.execute Pipeline.sample_config
                              Pipeline.until_analyzing) 0 = inr j
        ∧ Pipeline.phase j = Pipeline.Analyzing
        ∧ Pipeline.progressPercent j = 50)
  ∧ Pipeline.GetResult (Pipeline.execute Pipeline.sample_config Pipeline.until_analyzing) 0
    = inl Pipeline.NotReady
  ∧ (∃ d, Pipeline.GetResult (Pipeline.execute Pipeline.sample_config
                                Pipeline.until_completed) 0 = inr d
          ∧ Pipeline.doc_warnings d = ["multi-tool"])
  ∧ Pipeline.GetResult (Pipeline.execute Pipeline.sample_config Pipeline.until_completed) 7
    = inl Pipeline.NotFound.
Proof.
  split; [eexists; split; [vm_compute; reflexivity | by vm_compute]|].
  split; [vm_compute; reflexivity|].
  split; [eexists; split; [vm_compute; reflexivity | by vm_compute]|].
  vm_compute; reflexivity.
Qed.


(** C1: the progress percentage of a job is a whole number between 0 and
    100 and never decreases from one observed state to the next: along
    the states the state machine takes a job through, whatever events
    arrive, and in the orchestrator's table, where a job once stored is
    still there after every later event with a progress at least as
    large. *)
Theorem progress_bounded_and_monotone (c : Pipeline.Config) (i : nat)
    (subject : string) (es : list Pipeline.JobEvent) :
  Forall (λ j, 0 ≤ Pipeline.progressPercent j ≤ 100)
    (Pipeline.observed c (Pipeline.new_job i subject) es)
  ∧ (∀ n j1 j2,
      Pipeline.observed c (Pipeline.new_job i subject) es !! n = Some j1 →
      Pipeline.observed c (Pipeline.new_job i subject) es !! S n = Some j2 →
      Pipeline.progressPercent j1 ≤ Pipeline.progressPercent j2)
  ∧ ∀ run e j1,
      Pipeline.GetStatus (Pipeline.execute c run) i = inr j1 →
      ∃ j2, Pipeline.GetStatus (Pipeline.execute c (run ++ [e])) i = inr j2
            ∧ Pipeline.progressPercent j1 ≤ Pipeline.progressPercent j2
            ∧ Pipeline.progressPercent j2 ≤ 100.
Proof.
  pose proof (job_ok_new c i subject) as Hnew. split; [|split].
  - eapply Forall_impl; [by apply observed_ok|].
    intros j [Hr _ _ _ _ _ _ _]. simpl. lia.
  - intros n j1 j2. by apply observed_monotone.
  - intros run e j1 Hj1%GetStatus_lookup.
    pose proof (orch_inv_execute c run) as Hinv.
    destruct (Pipeline.inv_jobs _ _ Hinv _ _ Hj1) as (_ & _ & Hok1).
    rewrite execute_snoc.
    destruct (apply_job c i j1 _ e Hinv Hj1) as [Hsame|[je Hstep]].
    + exists j1. split; [by apply GetStatus_lookup|].
      split; [done | apply Hok1].
    + exists (Pipeline.job_step c j1 je). split; [by apply GetStatus_lookup|].
      split; [by apply job_step_progress|].
      by apply Pipeline.ok_range with c, job_ok_step.
Qed.

(** Scenario B: under AllMustSucceed one failed tool fails the job, with
    PhaseFailurePolicyViolated and no result. *)
Example scenario_B :
  ∃ j, Pipeline.GetStatus
         (Pipeline.execute Pipeline.strict_config Pipeline.until_tool_failure) 0 = inr j
       ∧ Pipeline.phase j = Pipeline.Failed
       ∧ Pipeline.errorDetail j
         = Some (Pipeline.Fatal Pipeline.PhaseFailurePolicyViolated)
       ∧ Pipeline.result j = None
       ∧ Pipeline.progressPercent j = 25.
Proof. eexists. split; [vm_compute; reflexivity | by vm_compute]. Qed.

(** ** Further properties of the scripts *)

Lemma read_matches_snoc lines line :
  Yara.read_matches (lines ++ [line])
  = Yara.loop_body (Yara.read_matches lines) line.
Proof. unfold Yara.read_matches. apply foldl_snoc. Qed.

Lemma parsed_snoc lines line :
  Yara.parsed (lines ++ [line])
  = Yara.parsed lines ++ option_list (Yara.parse_line line).
Proof.
  unfold Yara.parsed. rewrite omap_app. simpl.
  by destruct (Yara.parse_line line).
Qed.

(** X1: which lines of the YARA output the report program keeps.  A line
    whose stripped text holds no space (a blank line among them) leaves
    both dictionaries as they are; any other line is cut at its first
    space into rule name and match text, adds one to that rule's counter
    and appends the match text to that rule's list, and touches no other
    rule. *)
Theorem kept_lines (lines : list Py.str) (line : Py.str) :
  (Py.SPACE ∉ Py.strip line →
   Yara.read_matches (lines ++ [line]) = Yara.read_matches lines)
  ∧ ∀ rule info,
      Py.strip line = rule ++ Py.SPACE :: info → Py.SPACE ∉ rule →
      Py.od_get rule (Yara.rule_counts (Yara.read_matches (lines ++ [line])))
      = Some (default 0 (Py.od_get rule (Yara.rule_counts (Yara.read_matches lines))) + 1)
      ∧ Py.od_get rule (Yara.matches (Yara.read_matches (lines ++ [line])))
        = Some (default [] (Py.od_get rule (Yara.matches (Yara.read_matches lines)))
                ++ [info])
      ∧ ∀ other, other ≠ rule →
          Py.od_get other (Yara.rule_counts (Yara.read_matches (lines ++ [line])))
          = Py.od_get other (Yara.rule_counts (Yara.read_matches lines))
          ∧ Py.od_get other (Yara.matches (Yara.read_matches (lines ++ [line])))
            = Py.od_get other (Yara.matches (Yara.read_matches lines)).
Proof.
  split.
  - intros Hno%parse_line_None.
    by rewrite read_matches_snoc, loop_body_parse, Hno.
  - intros rule info Hs Hr.
    assert (Yara.parse_line line = Some (rule, info)) as Hp
      by (by apply parse_line_Some).
    destruct (read_matches_inv lines) as (Hm & Hc & _).
    destruct (read_matches_inv (lines ++ [line])) as (Hm' & Hc' & _).
    rewrite parsed_snoc, Hp in Hm'. simpl in Hm'.
    assert (∀ r, default [] (Py.od_get r (Yara.matches (Yara.read_matches lines)))
                 = Yara.infos_of r (Yara.parsed lines)) as Hdef.
    { intros r. rewrite Hm. case_bool_decide as E; [by rewrite E | done]. }
    split; [|split].
    + rewrite Hc', Hm', Hc, infos_of_snoc, decide_True by done.
      rewrite bool_decide_eq_false_2 by (by destruct (Yara.infos_of _ _)).
      simpl. rewrite length_app. simpl. f_equal. f_equal.
      rewrite Hm. by case_bool_decide as E; [rewrite E|].
    + rewrite Hm', infos_of_snoc, decide_True by done.
      rewrite bool_decide_eq_false_2 by (by destruct (Yara.infos_of _ _)).
      by rewrite Hdef.
    + intros other Hne.
      assert (Py.od_get other (Yara.matches (Yara.read_matches (lines ++ [line])))
              = Py.od_get other (Yara.matches (Yara.read_matches lines))) as Heq.
      { rewrite Hm', Hm, infos_of_snoc, decide_False by done. done. }
      split; [|done]. rewrite Hc', Hc. f_equal. exact Heq.
Qed.

Lemma kept_lines_witness :
  Py.od_get (Py.u "Command_History")
    (Yara.rule_counts
       (Yara.read_matches
          ([] ++ [Py.u "Command_History ./simple_dumps/test_cirros2.raw"])))
  = Some (default 0 (Py.od_get (Py.u "Command_History")
                       (Yara.rule_counts (Yara.read_matches []))) + 1).
Proof.
  refine (proj1 (proj2 (kept_lines []
                          (Py.u "Command_History ./simple_dumps/test_cirros2.raw"))
                   _ (Py.u "./simple_dumps/test_cirros2.raw") _ _)).
  - vm_compute. reflexivity.
  - intros Hin. vm_compute in Hin.
    repeat (apply elem_of_cons in Hin as [Hin|Hin]; [discriminate Hin|]).
    by apply elem_of_nil in Hin.
Defined.

Lemma found_iff now p lines name :
  Yara.found name (Yara.rule_summary (Yara.make_results now p lines)) = true
  ↔ ∃ line info, line ∈ lines
                 ∧ Py.strip line = Py.u name ++ Py.SPACE :: info
                 ∧ Py.SPACE ∉ Py.u name.
Proof.
  unfold Yara.found. rewrite bool_decide_eq_true, rule_count_default. split.
  - intros Hpos.
    destruct (Yara.infos_of (Py.u name) (Yara.parsed lines)) as [|m ms] eqn:E;
      [simpl in Hpos; lia|].
    assert (m ∈ Yara.infos_of (Py.u name) (Yara.parsed lines)) as Hm
      by (rewrite E; left).
    apply infos_of_elem, parsed_elem in Hm as (line & Hl & Hp).
    apply parse_line_Some in Hp as [? ?]. eauto.
  - intros (line & info & Hl & Hs & Hr).
    assert (info ∈ Yara.infos_of (Py.u name) (Yara.parsed lines)) as Hin.
    { apply infos_of_elem, parsed_elem. exists line. split; [done|].
      by apply parse_line_Some. }
    destruct (Yara.infos_of _ _); [by apply elem_of_nil in Hin | simpl; lia].
Qed.

(** X2: a key-finding flag of the result document is set exactly when the
    YARA output holds a kept line that starts with the flag's rule name. *)
Theorem key_findings_reflect_matches (now : Py.str) (p : Yara.params)
    (lines : list Py.str) :
  let has rule := ∃ line info, line ∈ lines
                   ∧ Py.strip line = Py.u rule ++ Py.SPACE :: info
                   ∧ Py.SPACE ∉ Py.u rule in
  let k := Yara.key_findings (Yara.make_results now p lines) in
  (Yara.credentials_found k = true ↔ has "CirrOS_Credentials")
  ∧ (Yara.system_config_found k = true ↔ has "System_Configuration")
  ∧ (Yara.process_maps_found k = true ↔ has "Process_Memory_Maps")
  ∧ (Yara.network_info_found k = true ↔ has "Network_Information")
  ∧ (Yara.ssh_keys_found k = true ↔ has "SSH_Keys_And_Auth")
  ∧ (Yara.potential_malware k = true ↔ has "Potential_Malware").
Proof.
  cbn zeta. repeat split; try (by intros ?%(found_iff now p)).
  all: intros H; by apply (found_iff now p).
Qed.

Section termination.
Import Sh.
Context (w : world) (Hexit : all_exit w).

Lemma falls_through_ret {A} (a : A) : falls_through (mret a).
Proof. intros s. exists a, s, []. by rewrite app_nil_r. Qed.

Lemma falls_through_emit e : falls_through (emit e).
Proof. intros s. by exists tt, {| trace := trace s ++ [e]; elapsed := elapsed s |}, [e]. Qed.

Lemma falls_through_exec argv : falls_through (exec w argv).
Proof.
  intros s. unfold exec. destruct (Hexit argv) as [d ->].
  by eexists _, _, [Exec argv].
Qed.

Lemma falls_through_bind {A B} (m : sh A) (k : A → sh B) :
  falls_through m → (∀ a, falls_through (k a)) → falls_through (m ≫= k).
Proof.
  intros Hm Hk s. destruct (Hm s) as (a & s1 & more1 & E1 & T1).
  destruct (Hk a s1) as (b & s2 & more2 & E2 & T2).
  exists b, s2, (more1 ++ more2). unfold mbind, sh_bind. rewrite E1, E2.
  split; [done|]. by rewrite T2, T1, app_assoc.
Qed.

Lemma falls_through_exec_to file argv : falls_through (exec_to w file argv).
Proof.
  apply falls_through_bind; [apply falls_through_emit|].
  intros _. apply falls_through_exec.
Qed.

Lemma falls_through_and_then a b :
  falls_through a → falls_through b → falls_through (and_then a b).
Proof.
  intros Ha Hb. apply falls_through_bind; [done|].
  intros r. case_bool_decide; [done | apply falls_through_ret].
Qed.

Lemma ends_with_emit3 e1 e2 e3 :
  ends_with (emit e1;; emit e2;; emit e3) [e1; e2; e3].
Proof.
  intros s. eexists _, []. split; [reflexivity|]. simpl.
  by rewrite <- !app_assoc.
Qed.

Lemma ends_with_bind {A} (m : sh A) (k : A → sh unit) suffix :
  falls_through m → (∀ a, ends_with (k a) suffix) → ends_with (m ≫= k) suffix.
Proof.
  intros Hm Hk s. destruct (Hm s) as (a & s1 & more1 & E1 & T1).
  destruct (Hk a s1) as (s2 & more2 & E2 & T2).
  exists s2, (more1 ++ more2). unfold mbind, sh_bind. rewrite E1, E2.
  split; [done|]. by rewrite T2, T1, !app_assoc.
Qed.

Ltac step :=
  first [ apply falls_through_exec_to | apply falls_through_exec
        | apply falls_through_emit | apply falls_through_ret
        | apply falls_through_and_then
        | apply falls_through_bind; [|intros ?] ].

Lemma binwalk_step_falls_through f d : falls_through (MultiTool.binwalk_step w f d).
Proof. unfold MultiTool.binwalk_step. destruct (command_v w "binwalk"); repeat step. Qed.

Lemma foremost_step_falls_through f d : falls_through (MultiTool.foremost_step w f d).
Proof. unfold MultiTool.foremost_step. destruct (command_v w "foremost"); repeat step. Qed.

Lemma bulk_extractor_step_falls_through f d :
  falls_through (MultiTool.bulk_extractor_step w f d).
Proof.
  unfold MultiTool.bulk_extractor_step.
  destruct (command_v w "bulk_extractor"); repeat step.
Qed.

Lemma yara_step_falls_through f d : falls_through (MultiTool.yara_step w f d).
Proof.
  unfold MultiTool.yara_step. step; [step|].
  destruct (command_v w "yara"); repeat step.
Qed.

Lemma strings_step_falls_through f d : falls_through (MultiTool.strings_step w f d).
Proof. unfold MultiTool.strings_step. repeat step. Qed.

Lemma hexdump_step_falls_through f d : falls_through (MultiTool.hexdump_step w f d).
Proof. unfold MultiTool.hexdump_step. repeat step. Qed.

Lemma custom_step_falls_through d : falls_through (MultiTool.custom_step w d).
Proof. unfold MultiTool.custom_step. repeat step. Qed.

End termination.

(** X3: on a machine where every command line exits on its own, and with
    a dump-file argument that names a regular file, both scripts run to
    their end with status 0, whichever tools are installed and whatever
    the tools' exit statuses: the analysis directory is made first and the
    last thing printed is the JSON file between its two sentinels. *)
Theorem scripts_end_with_json (w : Sh.world) (script : string) (args : list string) :
  Sh.all_exit w →
  nth 0 args "" ≠ "" →
  Sh.is_file w (nth 0 args "") = true →
  (∃ s more,
      Sh.run (MultiTool.script w script args) = Sh.Finished 0 s
      ∧ Sh.trace s
        = Sh.Mkdir ("./multi_tool_analysis_" +:+ Sh.date_stamp w) :: more ++
          [Sh.Echo Sh.JSON_OUTPUT_START;
           Sh.Cat ("./multi_tool_analysis_" +:+ Sh.date_stamp w
                   +:+ "/multi_tool_results.json");
           Sh.Echo Sh.JSON_OUTPUT_END])
  ∧ (∃ s more,
      Sh.run (YaraScript.script w script args) = Sh.Finished 0 s
      ∧ Sh.trace s
        = Sh.Mkdir ("./advanced_yara_analysis_" +:+ Sh.date_stamp w) :: more ++
          [Sh.Echo Sh.JSON_OUTPUT_START;
           Sh.Cat ("./advanced_yara_analysis_" +:+ Sh.date_stamp w
                   +:+ "/advanced_yara_results.json");
           Sh.Echo Sh.JSON_OUTPUT_END]).
Proof.
  intros Hexit Hne Hfile. split.
  - unfold Sh.run, MultiTool.script.
    unfold mbind at 1. unfold Sh.sh_bind at 1.
    rewrite guard_accepts by done.
    unfold mbind at 1. unfold Sh.sh_bind at 1. unfold Sh.emit at 1.
    match goal with |- context [ (?m ≫= ?k) ?s0 ] =>
      assert (Sh.ends_with (m ≫= k)
                [Sh.Echo Sh.JSON_OUTPUT_START;
                 Sh.Cat ("./multi_tool_analysis_" +:+ Sh.date_stamp w
                         +:+ "/multi_tool_results.json");
                 Sh.Echo Sh.JSON_OUTPUT_END]) as Hend
    end.
    { apply ends_with_bind; [apply falls_through_emit|]. intros _.
      apply ends_with_bind; [by apply binwalk_step_falls_through|]. intros _.
      apply ends_with_bind; [by apply foremost_step_falls_through|]. intros _.
      apply ends_with_bind; [by apply bulk_extractor_step_falls_through|]. intros _.
      apply ends_with_bind; [by apply yara_step_falls_through|]. intros _.
      apply ends_with_bind; [by apply strings_step_falls_through|]. intros _.
      apply ends_with_bind; [by apply hexdump_step_falls_through|]. intros _.
      apply ends_with_bind; [by apply custom_step_falls_through|]. intros _.
      apply ends_with_bind; [by apply falls_through_exec|]. intros _.
      apply ends_with_bind; [apply falls_through_emit|]. intros _.
      apply ends_with_emit3. }
    match goal with |- context [ (_ ≫= _) ?s0 ] =>
      destruct (Hend s0) as (s' & more & -> & Htrace)
    end.
    exists s', more. split; [done|]. rewrite Htrace. done.
  - unfold Sh.run, YaraScript.script.
    unfold mbind at 1. unfold Sh.sh_bind at 1.
    rewrite guard_accepts by done.
    unfold mbind at 1. unfold Sh.sh_bind at 1. unfold Sh.emit at 1.
    match goal with |- context [ (?m ≫= ?k) ?s0 ] =>
      assert (Sh.ends_with (m ≫= k)
                [Sh.Echo Sh.JSON_OUTPUT_START;
                 Sh.Cat ("./advanced_yara_analysis_" +:+ Sh.date_stamp w
                         +:+ "/advanced_yara_results.json");
                 Sh.Echo Sh.JSON_OUTPUT_END]) as Hend
    end.
    { apply ends_with_bind; [apply falls_through_emit|]. intros _.
      apply ends_with_bind; [by apply falls_through_exec_to|]. intros _.
      apply ends_with_bind; [apply falls_through_emit|]. intros _.
      apply ends_with_bind; [by apply falls_through_exec_to|]. intros _.
      apply ends_with_emit3. }
    match goal with |- context [ (_ ≫= _) ?s0 ] =>
      destruct (Hend s0) as (s' & more & -> & Htrace)
    end.
    exists s', more. split; [done|]. rewrite Htrace. done.
Qed.

Lemma machine_all_exit p :
  is_Some (Sh.runs_for p) → Sh.all_exit (MultiTool.machine "binwalk" p).
Proof.
  intros Hp argv. unfold MultiTool.machine. simpl. by case_bool_decide.
Qed.

Lemma scripts_end_with_json_witness :
  ∃ s more,
    Sh.run (MultiTool.script (MultiTool.machine "binwalk" MultiTool.one_hour)
              "./multi-tool-forensic.sh" ["./api_dumps/instance.dump"])
    = Sh.Finished 0 s
    ∧ Sh.trace s
      = Sh.Mkdir "./multi_tool_analysis_20250101_120000" :: more ++
        [Sh.Echo Sh.JSON_OUTPUT_START;
         Sh.Cat "./multi_tool_analysis_20250101_120000/multi_tool_results.json";
         Sh.Echo Sh.JSON_OUTPUT_END].
Proof.
  exact (proj1 (scripts_end_with_json
                  (MultiTool.machine "binwalk" MultiTool.one_hour)
                  "./multi-tool-forensic.sh" ["./api_dumps/instance.dump"]
                  (machine_all_exit MultiTool.one_hour (mk_is_Some _ _ eq_refl))
                  ltac:(discriminate) eq_refl)).
Defined.

(** ** The report program of advanced-yara-tool.sh, continued *)

Lemma od_keys_set_present {K V} `{EqDecision K} (k : K) (v : V) (d : list (K * V)) :
  is_Some (Py.od_get k d) → Py.od_keys (Py.od_set k v d) = Py.od_keys d.
Proof.
  unfold Py.od_keys. induction d as [|[k0 v0] d IH]; simpl.
  - by intros [? ?].
  - destruct (decide (k = k0)) as [->|Hk]; simpl; [done|].
    intros Hs. f_equal. by apply IH.
Qed.

Lemma od_keys_set_absent {K V} `{EqDecision K} (k : K) (v : V) (d : list (K * V)) :
  Py.od_get k d = None → Py.od_keys (Py.od_set k v d) = Py.od_keys d ++ [k].
Proof.
  unfold Py.od_keys. induction d as [|[k0 v0] d IH]; simpl; [done|].
  destruct (decide (k = k0)) as [->|Hk]; simpl; [done|].
  intros Hn. f_equal. by apply IH.
Qed.

Lemma first_seen_snoc {A} `{EqDecision A} (l : list A) (x : A) :
  Order.first_seen (l ++ [x])
  = if decide (x ∈ l) then Order.first_seen l else Order.first_seen l ++ [x].
Proof.
  unfold Order.first_seen. rewrite reverse_snoc. cbn [remove_dups].
  destruct (decide (x ∈ l)) as [Hin|Hin]; case_decide as Hr;
    rewrite elem_of_reverse in Hr; try done.
  by rewrite reverse_cons.
Qed.

Lemma first_seen_elem {A} `{EqDecision A} (l : list A) (x : A) :
  x ∈ Order.first_seen l ↔ x ∈ l.
Proof.
  unfold Order.first_seen.
  by rewrite elem_of_reverse, elem_of_remove_dups, elem_of_reverse.
Qed.

Lemma first_seen_NoDup {A} `{EqDecision A} (l : list A) : NoDup (Order.first_seen l).
Proof.
  unfold Order.first_seen. rewrite reverse_Permutation. apply NoDup_remove_dups.
Qed.

Lemma detailed_default now p lines r :
  default [] (Py.od_get r (Yara.detailed_matches (Yara.make_results now p lines)))
  = Yara.infos_of r (Yara.parsed lines).
Proof.
  rewrite detailed_matches_get. case_bool_decide as Hnil; [by rewrite Hnil | done].
Qed.

Lemma parsed_app l1 l2 : Yara.parsed (l1 ++ l2) = Yara.parsed l1 ++ Yara.parsed l2.
Proof. unfold Yara.parsed. apply omap_app. Qed.

Lemma infos_of_app r ps1 ps2 :
  Yara.infos_of r (ps1 ++ ps2) = Yara.infos_of r ps1 ++ Yara.infos_of r ps2.
Proof. unfold Yara.infos_of. by rewrite filter_app, fmap_app. Qed.

(** X4: the report over two pieces of output read one after the other is
    the combination of the reports over each piece: the totals and the
    per-rule counters add up, and each rule's match texts are those of the
    first piece followed by those of the second. *)
Theorem report_over_concatenation (now : Py.str) (p : Yara.params)
    (lines1 lines2 : list Py.str) :
  Yara.total_matches (Yara.make_results now p (lines1 ++ lines2))
  = Yara.total_matches (Yara.make_results now p lines1)
    + Yara.total_matches (Yara.make_results now p lines2)
  ∧ ∀ rule,
      default 0 (Py.od_get rule
                   (Yara.rule_summary (Yara.make_results now p (lines1 ++ lines2))))
      = default 0 (Py.od_get rule (Yara.rule_summary (Yara.make_results now p lines1)))
        + default 0 (Py.od_get rule (Yara.rule_summary (Yara.make_results now p lines2)))
      ∧ default [] (Py.od_get rule
                      (Yara.detailed_matches (Yara.make_results now p (lines1 ++ lines2))))
        = default [] (Py.od_get rule
                        (Yara.detailed_matches (Yara.make_results now p lines1)))
          ++ default [] (Py.od_get rule
                           (Yara.detailed_matches (Yara.make_results now p lines2))).
Proof.
  split.
  - destruct (total_is_number_of_kept_lines now p (lines1 ++ lines2)) as [-> _].
    destruct (total_is_number_of_kept_lines now p lines1) as [-> _].
    destruct (total_is_number_of_kept_lines now p lines2) as [-> _].
    by rewrite parsed_app, length_app.
  - intros rule. split.
    + by rewrite !rule_count_default, parsed_app, infos_of_app, length_app.
    + by rewrite !detailed_default, parsed_app, infos_of_app.
Qed.

Lemma tables_keys lines :
  Py.od_keys (Yara.matches (Yara.read_matches lines))
  = Order.first_seen (Yara.parsed lines).*1
  ∧ Py.od_keys (Yara.rule_counts (Yara.read_matches lines))
    = Order.first_seen (Yara.parsed lines).*1.
Proof.
  induction lines as [|line lines [IHm IHc]] using rev_ind; [done|].
  rewrite read_matches_snoc, parsed_snoc, loop_body_parse.
  destruct (Yara.parse_line line) as [[r m]|];
    [|change (option_list None) with (@nil (Py.str * Py.str)); by rewrite app_nil_r].
  change (option_list (Some (r, m))) with [(r, m)].
  rewrite fmap_app. change ([(r, m)].*1) with [r]. rewrite first_seen_snoc.
  cbn zeta.
  destruct (read_matches_inv lines) as (Hm & Hc & _).
  destruct (decide (r ∈ (Yara.parsed lines).*1)) as [Hin|Hin].
  - assert (is_Some (Py.od_get r (Yara.matches (Yara.read_matches lines)))) as Hs.
    { apply od_keys_get. rewrite IHm. by apply first_seen_elem. }
    assert (Py.od_mem r (Yara.matches (Yara.read_matches lines)) = true) as ->
      by (by apply bool_decide_eq_true).
    simpl. split.
    + by rewrite od_keys_set_present.
    + rewrite od_keys_set_present; [done|]. rewrite Hc. by apply fmap_is_Some.
  - assert (Py.od_get r (Yara.matches (Yara.read_matches lines)) = None) as Hn.
    { apply eq_None_not_Some. intros Hs%od_keys_get. rewrite IHm in Hs.
      apply Hin. by apply first_seen_elem. }
    assert (Py.od_mem r (Yara.matches (Yara.read_matches lines)) = false) as ->
      by (apply (proj2 (od_mem_get _ _)), Hn).
    simpl. split.
    + rewrite od_keys_set_present by (rewrite od_get_set_eq; eauto).
      rewrite od_keys_set_absent by done. by rewrite IHm.
    + rewrite od_keys_set_present by (rewrite od_get_set_eq; eauto).
      rewrite od_keys_set_absent; [by rewrite IHc|]. by rewrite Hc, Hn.
Qed.

(** C5, as amended: what two runs of the report program have in common.
    The dump file apart, the parameters of a run are built from the date
    stamp of the script, so the analysis directory and the rules file of
    two runs are the same exactly when the stamps are.  For the same output
    lines in the same order the counters and the grouped matches are the
    same, whatever the clock and the stamp.  For the same lines in another
    order the total, every rule's counter, the key-finding flags and the
    set of rule names are the same and every rule's match texts are the
    same as a multiset; the order of the keys and of the match texts
    follows the input. *)
Theorem report_same_up_to_order_and_stamp (now1 now2 dump stamp1 stamp2 : Py.str)
    (lines1 lines2 : list Py.str) :
  lines1 ≡ₚ lines2 →
  (lines1 = lines2 →
     Yara.rule_summary (Yara.report now1 dump stamp1 lines1)
     = Yara.rule_summary (Yara.report now2 dump stamp2 lines2)
     ∧ Yara.detailed_matches (Yara.report now1 dump stamp1 lines1)
       = Yara.detailed_matches (Yara.report now2 dump stamp2 lines2))
  ∧ Yara.dump_file (Yara.report now1 dump stamp1 lines1)
    = Yara.dump_file (Yara.report now2 dump stamp2 lines2)
  ∧ (Yara.analysis_directory (Yara.report now1 dump stamp1 lines1)
     = Yara.analysis_directory (Yara.report now2 dump stamp2 lines2)
     ↔ stamp1 = stamp2)
  ∧ (Yara.yara_rules_file (Yara.report now1 dump stamp1 lines1)
     = Yara.yara_rules_file (Yara.report now2 dump stamp2 lines2)
     ↔ stamp1 = stamp2)
  ∧ Yara.total_matches (Yara.report now1 dump stamp1 lines1)
    = Yara.total_matches (Yara.report now2 dump stamp2 lines2)
  ∧ Yara.key_findings (Yara.report now1 dump stamp1 lines1)
    = Yara.key_findings (Yara.report now2 dump stamp2 lines2)
  ∧ Py.od_keys (Yara.rule_summary (Yara.report now1 dump stamp1 lines1))
    ≡ₚ Py.od_keys (Yara.rule_summary (Yara.report now2 dump stamp2 lines2))
  ∧ ∀ rule,
      Py.od_get rule (Yara.rule_summary (Yara.report now1 dump stamp1 lines1))
      = Py.od_get rule (Yara.rule_summary (Yara.report now2 dump stamp2 lines2))
      ∧ default [] (Py.od_get rule
                      (Yara.detailed_matches (Yara.report now1 dump stamp1 lines1)))
        ≡ₚ default [] (Py.od_get rule
                         (Yara.detailed_matches (Yara.report now2 dump stamp2 lines2))).
Proof.
  intros Hp. unfold Yara.report.
  set (p1 := Yara.script_params dump stamp1).
  set (p2 := Yara.script_params dump stamp2).
  pose proof (parsed_perm _ _ Hp) as Hps.
  assert (∀ r, Yara.infos_of r (Yara.parsed lines1) ≡ₚ Yara.infos_of r (Yara.parsed lines2))
    as Hinf by (intros r; by apply infos_of_perm).
  assert (∀ r, bool_decide (Yara.infos_of r (Yara.parsed lines1) = [])
               = bool_decide (Yara.infos_of r (Yara.parsed lines2) = [])) as Hnil.
  { intros r. apply bool_decide_ext. specialize (Hinf r). split; intros E.
    - rewrite E in Hinf. by apply Permutation_nil_l in Hinf.
    - rewrite E in Hinf. by apply Permutation_nil_r in Hinf. }
  assert (∀ rule,
            Py.od_get rule (Yara.rule_summary (Yara.make_results now1 p1 lines1))
            = Py.od_get rule (Yara.rule_summary (Yara.make_results now2 p2 lines2)))
    as Hcount.
  { intros rule. rewrite !rule_summary_get, Hnil. case_bool_decide; [done|].
    f_equal. apply Permutation_length, Hinf. }
  split; [by intros ->|].
  split; [done|].
  split.
  { subst p1 p2. unfold Yara.make_results, Yara.script_params.
    cbn [Yara.analysis_directory Yara.p_analysis_dir].
    split; [|by intros ->]. by intros ?%app_inv_head. }
  split.
  { subst p1 p2. unfold Yara.make_results, Yara.script_params.
    cbn [Yara.yara_rules_file Yara.p_yara_rules].
    split; [|by intros ->]. by intros ?%app_inv_tail%app_inv_head. }
  split.
  { destruct (total_is_number_of_kept_lines now1 p1 lines1) as [-> _].
    destruct (total_is_number_of_kept_lines now2 p2 lines2) as [-> _].
    by apply Permutation_length. }
  split.
  { simpl. f_equal; by apply (found_perm now1 now2 p1 p2). }
  split.
  { apply NoDup_Permutation.
    - simpl. rewrite (proj2 (tables_keys lines1)). apply first_seen_NoDup.
    - simpl. rewrite (proj2 (tables_keys lines2)). apply first_seen_NoDup.
    - intros rule. rewrite !od_keys_get. by rewrite Hcount. }
  intros rule. split; [apply Hcount|].
  rewrite !detailed_matches_get, Hnil. case_bool_decide; [done|]. apply Hinf.
Qed.

Lemma sample_output_perm : Yara.sample_output ≡ₚ Yara.sample_output_reordered.
Proof.
  unfold Yara.sample_output, Yara.sample_output_reordered.
  etransitivity; [apply (Permutation_app_comm [_; _] [_; _]) | apply perm_swap].
Qed.

Lemma report_same_up_to_order_and_stamp_witness :
  Yara.sample_output ≡ₚ Yara.sample_output_reordered
  ∧ Yara.total_matches
      (Yara.report (Py.u "2025-01-01T12:00:00") (Py.u "./simple_dumps/test_cirros2.raw")
         (Py.u "20250101_120000") Yara.sample_output)
    = Yara.total_matches
        (Yara.report (Py.u "2025-01-02T08:30:00") (Py.u "./simple_dumps/test_cirros2.raw")
           (Py.u "20250102_083000") Yara.sample_output_reordered).
Proof.
  split; [exact sample_output_perm|].
  exact (proj1 (proj2 (proj2 (proj2 (proj2
           (report_same_up_to_order_and_stamp
              (Py.u "2025-01-01T12:00:00") (Py.u "2025-01-02T08:30:00")
              (Py.u "./simple_dumps/test_cirros2.raw")
              (Py.u "20250101_120000") (Py.u "20250102_083000")
              _ _ sample_output_perm)))))).
Defined.

(** The same output lines in another order, and the same lines under
    another date stamp: the grouped part of the document differs in the
    first case, the analysis directory in the second. *)
Lemma reordered_output_or_later_run_changes_document :
  Yara.sample_output ≡ₚ Yara.sample_output_reordered
  ∧ Yara.rule_summary
      (Yara.report (Py.u "2025-01-01T12:00:00") (Py.u "./simple_dumps/test_cirros2.raw")
         (Py.u "20250101_120000") Yara.sample_output)
    ≠ Yara.rule_summary
        (Yara.report (Py.u "2025-01-01T12:00:00") (Py.u "./simple_dumps/test_cirros2.raw")
           (Py.u "20250101_120000") Yara.sample_output_reordered)
  ∧ Yara.detailed_matches
      (Yara.report (Py.u "2025-01-01T12:00:00") (Py.u "./simple_dumps/test_cirros2.raw")
         (Py.u "20250101_120000") [Py.u "R a"; Py.u "R b"])
    = [(Py.u "R", [Py.u "a"; Py.u "b"])]
  ∧ Yara.detailed_matches
      (Yara.report (Py.u "2025-01-01T12:00:00") (Py.u "./simple_dumps/test_cirros2.raw")
         (Py.u "20250101_120000") [Py.u "R b"; Py.u "R a"])
    = [(Py.u "R", [Py.u "b"; Py.u "a"])]
  ∧ Yara.with_timestamp (Py.u "2025-01-01T12:00:00")
      (Yara.report (Py.u "2025-01-02T08:30:00") (Py.u "./simple_dumps/test_cirros2.raw")
         (Py.u "20250102_083000") Yara.sample_output)
    ≠ Yara.report (Py.u "2025-01-01T12:00:00") (Py.u "./simple_dumps/test_cirros2.raw")
        (Py.u "20250101_120000") Yara.sample_output.
Proof.
  split; [exact sample_output_perm|].
  split; [vm_compute; discriminate|].
  split; [vm_compute; reflexivity|].
  split; [vm_compute; reflexivity|].
  vm_compute; discriminate.
Qed.

(** X5: the keys of [rule_summary] and of [detailed_matches] are the same
    list: the rule names of the kept lines, each once, in the order in
    which they first appear in the YARA output.  [json.dumps] prints them
    in that order. *)
Theorem report_keys_in_order_of_first_appearance (now : Py.str) (p : Yara.params)
    (lines : list Py.str) :
  Py.od_keys (Yara.rule_summary (Yara.make_results now p lines))
  = Py.od_keys (Yara.detailed_matches (Yara.make_results now p lines))
  ∧ Py.od_keys (Yara.detailed_matches (Yara.make_results now p lines))
    = Order.first_seen (Yara.parsed lines).*1
  ∧ NoDup (Py.od_keys (Yara.detailed_matches (Yara.make_results now p lines))).
Proof.
  destruct (tables_keys lines) as [Hm Hc]. simpl.
  split; [by rewrite Hm, Hc|]. split; [done|].
  rewrite Hm. apply first_seen_NoDup.
Qed.

(** ** The custom memory analysis of multi-tool-forensic.sh *)

Example hex_samples :
  Custom.hex 0 = Py.u "0x0" ∧ Custom.hex 255 = Py.u "0xff"
  ∧ Custom.hex 4096 = Py.u "0x1000" ∧ Custom.hex 2748 = Py.u "0xabc".
Proof. repeat split; vm_compute; reflexivity. Qed.

Example sample_dump_analysis :
  Custom.elf_offsets Custom.sample_dump = [18]
  ∧ Custom.string_hits Custom.sample_dump = [(1, Py.u "init Task: pid=1")]
  ∧ Custom.potential_strings Custom.sample_dump = [Py.u "0x1: init Task: pid=1"]
  ∧ Custom.region_offsets Custom.sample_dump = [0].
Proof. repeat split; vm_compute; reflexivity. Qed.

Lemma StronglySorted_seq (a n : nat) : StronglySorted lt (seq a n).
Proof.
  revert a. induction n as [|n IH]; intros a; simpl; [constructor|].
  apply StronglySorted_cons. split; [|apply IH].
  apply Forall_forall. intros x Hx%elem_of_seq. lia.
Qed.

Lemma slice_of_first_read (file : Custom.bytes) (off n : nat) :
  off + 4 ≤ n → take 4 (drop off (take n file)) = take 4 (drop off file).
Proof.
  intros Hle. rewrite !take_drop_commute, take_take.
  by replace ((off + 4) `min` n) with (off + 4) by lia.
Qed.

(** X6: the ELF scan of the custom analysis looks at the first MiB of the
    dump only and reports, in ascending order, exactly the offsets at which
    the four magic bytes stand with at least one more byte read after
    them; a magic that ends the data read (the file's last four bytes, or
    the last four bytes of the first MiB) is not reported. *)
Theorem elf_scan (file : Custom.bytes) :
  Custom.r_elf_headers (Custom.analyze_memory_dump file)
  = Custom.hex <$> Custom.elf_offsets (take Custom.MiB file)
  ∧ (∀ off, off ∈ Custom.elf_offsets (take Custom.MiB file) ↔
            off + 4 < Custom.MiB `min` length file
            ∧ take 4 (drop off file) = Custom.ELF)
  ∧ StronglySorted lt (Custom.elf_offsets (take Custom.MiB file))
  ∧ (∀ before, file = before ++ Custom.ELF →
       length before ∉ Custom.elf_offsets (take Custom.MiB file))
  ∧ (∀ before after, file = before ++ Custom.ELF ++ after →
       length before + 4 < Custom.MiB → after ≠ [] →
       length before ∈ Custom.elf_offsets (take Custom.MiB file)).
Proof.
  assert (∀ off, off ∈ Custom.elf_offsets (take Custom.MiB file) ↔
                 off + 4 < Custom.MiB `min` length file
                 ∧ take 4 (drop off file) = Custom.ELF) as Hiff.
  { intros off. unfold Custom.elf_offsets.
    rewrite list_elem_of_filter, elem_of_seq, length_take. split.
    - intros [Hslice Hlt]. split; [lia|].
      rewrite <- Hslice. symmetry. apply slice_of_first_read. lia.
    - intros [Hlt Hslice]. split; [|lia].
      rewrite slice_of_first_read; [done | lia]. }
  split; [reflexivity|]. split; [exact Hiff|]. split; [|split].
  - unfold Custom.elf_offsets. apply StronglySorted_filter, StronglySorted_seq.
  - intros before -> [Hlt _]%Hiff. rewrite length_app in Hlt.
    change (length Custom.ELF) with 4 in Hlt. lia.
  - intros before after -> Hfit Hmore. apply Hiff. split.
    + rewrite !length_app. change (length Custom.ELF) with 4.
      destruct after as [|b after]; [done|]. rewrite length_cons. lia.
    + rewrite drop_app_length. done.
Qed.

Lemma elf_scan_witness :
  length [0%N] ∈ Custom.elf_offsets
                   (take Custom.MiB ([0%N] ++ Custom.ELF ++ [1%N])).
Proof.
  refine (proj2 (proj2 (proj2 (proj2 (elf_scan ([0%N] ++ Custom.ELF ++ [1%N])))))
            [0%N] [1%N] eq_refl _ _).
  - change (length [0%N]) with 1. unfold Custom.MiB. lia.
  - done.
Defined.

Section strings_scan.
Import Custom.

Lemma strings_loop_entry {X} (entry : nat → bytes → X) rest : ∀ i cur found,
  strings_loop entry i rest cur ((λ h : nat * bytes, entry h.1 h.2) <$> found)
  = (λ h : nat * bytes, entry h.1 h.2) <$> strings_loop pair i rest cur found.
Proof.
  induction rest as [|b rest IH]; intros i cur found; simpl; [done|].
  destruct (printable b); [apply IH|].
  destruct (bool_decide (4 ≤ length cur) && has_keyword cur); [|apply IH].
  rewrite <- IH. by rewrite fmap_app.
Qed.

Lemma strings_loop_printable {X} (entry : nat → bytes → X) rest : ∀ i cur found,
  Forall (λ b, printable b = true) rest →
  strings_loop entry i rest cur found = found.
Proof.
  induction rest as [|b rest IH]; intros i cur found Hall; simpl; [done|].
  apply Forall_cons in Hall as [-> Hall]. by apply IH.
Qed.

Lemma strings_loop_sound data rest : ∀ before cur found,
  data = before ++ cur ++ rest →
  Forall (λ b, printable b = true) cur →
  (before = [] ∨ ∃ p b, before = p ++ [b] ∧ printable b = false) →
  Forall (reported_string data) found →
  Forall (reported_string data)
    (strings_loop pair (length before + length cur) rest cur found).
Proof.
  induction rest as [|byte rest IH]; intros before cur found Hdata Hcur Hbefore Hfound;
    simpl; [done|].
  destruct (printable byte) eqn:Hbyte.
  - replace (S (length before + length cur))
      with (length before + length (cur ++ [byte]))
      by (rewrite length_app; simpl; lia).
    apply IH; [|by apply Forall_app; split; [|constructor]|done|done].
    by rewrite Hdata, <- !app_assoc.
  - replace (S (length before + length cur))
      with (length (before ++ cur ++ [byte]) + length (@nil N))
      by (rewrite !length_app; simpl; lia).
    apply IH.
    + by rewrite Hdata, <- !app_assoc.
    + constructor.
    + right. exists (before ++ cur), byte. by rewrite <- app_assoc.
    + destruct (bool_decide (4 ≤ length cur) && has_keyword cur) eqn:Hkeep; [|done].
      apply andb_prop in Hkeep as [Hlen%bool_decide_eq_true Hkey].
      apply Forall_app. split; [done|]. constructor; [|constructor].
      replace (length before + length cur - length cur) with (length before) by lia.
      unfold reported_string. simpl.
      split; [done|]. split; [done|]. split; [done|].
      split; [|split].
      * rewrite Hdata, drop_app_length. apply take_app_length.
      * exists byte. split; [|done].
        rewrite Hdata, app_assoc. apply list_lookup_middle.
        by rewrite length_app.
      * destruct Hbefore as [->|(p & b & -> & Hb)]; [by left|].
        right. exists b. split; [|done].
        rewrite Hdata, length_app. simpl.
        rewrite <- !app_assoc. apply list_lookup_middle. lia.
Qed.

Lemma strings_loop_mono {X} (entry : nat → bytes → X) rest : ∀ i cur found,
  ∃ more, strings_loop entry i rest cur found = found ++ more.
Proof.
  induction rest as [|b rest IH]; intros i cur found; simpl.
  - exists []. by rewrite app_nil_r.
  - destruct (printable b); [apply IH|].
    destruct (bool_decide (4 ≤ length cur) && has_keyword cur); [|apply IH].
    destruct (IH (S i) [] (found ++ [entry (i - length cur) cur])) as [more ->].
    exists ([entry (i - length cur) cur] ++ more). by rewrite <- app_assoc.
Qed.

Lemma strings_loop_run text : ∀ i b after cur found,
  Forall (λ x, printable x = true) text → printable b = false →
  strings_loop pair i (text ++ b :: after) cur found
  = strings_loop pair (S (i + length text)) after []
      (if bool_decide (4 ≤ length (cur ++ text)) && has_keyword (cur ++ text)
       then found ++ [(i + length text - length (cur ++ text), cur ++ text)]
       else found).
Proof.
  induction text as [|x text IH]; intros i b after cur found Htext Hb; simpl.
  - rewrite Hb, app_nil_r. by replace (i + 0) with i by lia.
  - apply Forall_cons in Htext as [-> Htext].
    rewrite IH by done.
    replace ((cur ++ [x]) ++ text) with (cur ++ x :: text)
      by (by rewrite <- app_assoc).
    by replace (S i + length text) with (i + S (length text)) by lia.
Qed.

Lemma strings_loop_reset p : ∀ i b rest cur found,
  printable b = false →
  ∃ found', strings_loop pair i (p ++ b :: rest) cur found
            = strings_loop pair (S (i + length p)) rest [] found'.
Proof.
  induction p as [|x p IH]; intros i b rest cur found Hb; simpl.
  - rewrite Hb. replace (i + 0) with i by lia. eauto.
  - replace (i + S (length p)) with (S i + length p) by lia.
    destruct (printable x); by apply IH.
Qed.

Lemma strings_loop_complete data off text :
  reported_string data (off, text) → (off, text) ∈ string_hits data.
Proof.
  intros (Hlen & Hprint & Hkey & Hat & (b & Hb & Hnp) & Hbefore). simpl in *.
  assert (off + length text < length data) as Hlt by (by apply lookup_lt_Some in Hb).
  assert (data = take off data ++ text ++ b :: drop (S (off + length text)) data)
    as Hdata.
  { rewrite <- (take_drop off data) at 1. f_equal.
    rewrite <- (take_drop (length text) (drop off data)) at 1.
    rewrite Hat. f_equal. rewrite drop_drop. by apply drop_S. }
  assert (length (take off data) = off) as Hoff by (rewrite length_take; lia).
  assert (∃ found, strings_loop pair 0 (take off data ++ text
                                        ++ b :: drop (S (off + length text)) data) [] []
                   = strings_loop pair off (text ++ b :: drop (S (off + length text)) data)
                       [] found) as [found Hreach].
  { destruct off as [|off']; [by exists []|].
    destruct Hbefore as [?|(b0 & Hb0 & Hnp0)]; [done|].
    replace (S off' - 1) with off' in Hb0 by lia.
    rewrite (take_S_r _ _ _ Hb0), <- app_assoc.
    destruct (strings_loop_reset (take off' data) 0 b0
                (text ++ b :: drop (S (S off' + length text)) data) [] [] Hnp0)
      as [found Hfound].
    exists found. etransitivity; [exact Hfound|].
    f_equal. rewrite length_take. lia. }
  unfold string_hits. rewrite Hdata at 1. rewrite Hreach.
  rewrite strings_loop_run by done. simpl.
  rewrite bool_decide_eq_true_2, Hkey by done. simpl.
  replace (off + length text - length text) with off by lia.
  match goal with
  | |- _ ∈ strings_loop ?e ?i ?r ?c ?f =>
      destruct (strings_loop_mono e r i c f) as [more ->]
  end.
  rewrite !elem_of_app. left. right. apply list_elem_of_singleton. done.
Qed.

End strings_scan.

(** X7: what the strings scan of the custom analysis reports.  The
    entries are the offset in hexadecimal, a colon and the text of exactly
    those runs of at least four printable bytes that hold one of the
    keywords (in any letter case), stand at that offset in the first MiB,
    are not preceded by a printable byte and are followed by a byte that
    is not printable.
    A run that is still open when the data read ends is never reported: a
    dump whose first MiB is printable throughout yields no entry. *)
Theorem strings_scan_reports (file : Custom.bytes) :
  Custom.r_potential_strings (Custom.analyze_memory_dump file)
  = (λ h, Custom.hex h.1 ++ Py.u ": " ++ h.2)
      <$> Custom.string_hits (take Custom.MiB file)
  ∧ (∀ hit, hit ∈ Custom.string_hits (take Custom.MiB file) ↔
            Custom.reported_string (take Custom.MiB file) hit)
  ∧ (∀ off text, (off, text) ∈ Custom.string_hits (take Custom.MiB file) →
       off + length text < Custom.MiB `min` length file)
  ∧ (Forall (λ b, Custom.printable b = true) (take Custom.MiB file) →
     Custom.r_potential_strings (Custom.analyze_memory_dump file) = []).
Proof.
  assert (Forall (Custom.reported_string (take Custom.MiB file))
            (Custom.string_hits (take Custom.MiB file))) as Hsound.
  { apply (strings_loop_sound _ _ [] [] []); [done | constructor | by left | constructor]. }
  split.
  - apply (strings_loop_entry Custom.string_entry (take Custom.MiB file) 0 [] []).
  - split.
    { intros [off text]. split.
      - intros Hin. by eapply Forall_forall in Hsound.
      - apply strings_loop_complete. }
    split.
    + intros off text Hin. eapply Forall_forall in Hsound; [|exact Hin].
      destruct Hsound as (_ & _ & _ & _ & (b & Hb & _) & _). simpl in Hb.
      apply lookup_lt_Some in Hb. by rewrite length_take in Hb.
    + intros Hall. by apply strings_loop_printable.
Qed.

Lemma filter_agree {A} (P Q : A → Prop)
    `{!∀ x, Decision (P x)} `{!∀ x, Decision (Q x)} (l : list A) :
  (∀ x, x ∈ l → P x ↔ Q x) → filter P l = filter Q l.
Proof.
  induction l as [|a l IH]; intros Hl; [done|].
  rewrite !filter_cons.
  assert (P a ↔ Q a) as Ha by (apply Hl; left).
  assert (filter P l = filter Q l) as -> by (apply IH; intros x Hx; apply Hl; by right).
  destruct (decide (P a)), (decide (Q a)); naive_solver.
Qed.

Lemma page_offsets_elem (n off : nat) :
  off ∈ Custom.page_offsets n ↔ (∃ k, off = k * 4096) ∧ off < n.
Proof.
  unfold Custom.page_offsets. rewrite list_elem_of_fmap.
  pose proof (Nat.div_mod_eq (n + 4095) 4096) as Hdiv.
  pose proof (Nat.mod_upper_bound (n + 4095) 4096) as Hmod.
  split.
  - intros (k & -> & Hk). apply elem_of_seq in Hk. split; [by exists k|lia].
  - intros [[k ->] Hlt]. exists k. split; [done|]. apply elem_of_seq. lia.
Qed.

Lemma page_head_lookup (file : Custom.bytes) (off i : nat) :
  take 16 (drop off file) !! i = if decide (i < 16) then file !! (off + i) else None.
Proof.
  case_decide.
  - by rewrite lookup_take_lt, lookup_drop.
  - apply lookup_take_ge. lia.
Qed.

(** X8: what the page scan of the custom analysis reports.  The entries
    are the text "Active page at " and the offset in hexadecimal of exactly
    the offsets that are a multiple of 4096, lie below both ten MiB and the
    size of the file, and have more than eight non-zero bytes among the
    sixteen bytes read there; they come in increasing order and are at most
    2560.  Only those sixteen bytes of a page count: two files of the same
    size that agree on them give the same entries. *)
Theorem page_scan (file : Custom.bytes) :
  Custom.r_memory_regions (Custom.analyze_memory_dump file)
  = (λ off, Py.u "Active page at " ++ Custom.hex off)
      <$> Custom.region_offsets file
  ∧ (∀ off, off ∈ Custom.region_offsets file ↔
       (∃ k, off = k * 4096)
       ∧ off < (Custom.MiB * 10) `min` length file
       ∧ 8 < Custom.non_zero (take 16 (drop off file)))
  ∧ StronglySorted lt (Custom.region_offsets file)
  ∧ length (Custom.region_offsets file) ≤ 2560
  ∧ (∀ file' : Custom.bytes,
       length file' = length file →
       (∀ k i, i < 16 → file' !! (k * 4096 + i) = file !! (k * 4096 + i)) →
       Custom.region_offsets file' = Custom.region_offsets file).
Proof.
  split; [done|]. split; [|split; [|split]].
  - intros off. unfold Custom.region_offsets.
    rewrite list_elem_of_filter, page_offsets_elem.
    unfold Custom.page_is_active. cbv zeta.
    rewrite andb_true_iff, !bool_decide_eq_true.
    split.
    + intros [[_ Hnz] [Hk Hlt]]. done.
    + intros (Hk & Hlt & Hnz). split; [|done]. split; [|done].
      intros Hnil. rewrite Hnil in Hnz. unfold Custom.non_zero in Hnz.
      cbn in Hnz. lia.
  - unfold Custom.region_offsets. apply StronglySorted_filter.
    unfold Custom.page_offsets.
    apply (StronglySorted_fmap _ lt lt); [intros x y Hxy; lia|].
    apply StronglySorted_seq.
  - unfold Custom.region_offsets.
    etransitivity; [apply length_filter|].
    unfold Custom.page_offsets. rewrite length_fmap, length_seq.
    apply Nat.lt_succ_r, Nat.Div0.div_lt_upper_bound.
    unfold Custom.MiB. lia.
  - intros file' Hlen Hsame. unfold Custom.region_offsets. rewrite Hlen.
    apply filter_agree. intros off Hoff.
    apply page_offsets_elem in Hoff as [[k ->] _].
    assert (take 16 (drop (k * 4096) file') = take 16 (drop (k * 4096) file))
      as Hpage.
    { apply list_eq. intros i. rewrite !page_head_lookup.
      case_decide; [by apply Hsame|done]. }
    unfold Custom.page_is_active. by rewrite Hpage.
Qed.

(** ** What multi-tool-forensic.sh does about a tool that is not installed *)

Section effects.
Import Sh.
Context (w : world).

Lemma only_ret P {A} (a : A) : only P (mret a).
Proof. intros s. exists []. by rewrite app_nil_r. Qed.

Lemma only_exit P {A} n : only P (exit (A:=A) n).
Proof. intros s. exists []. by rewrite app_nil_r. Qed.

Lemma only_emit (P : effect → Prop) e : P e → only P (emit e).
Proof. intros He s. exists [e]. split; [done|]. by constructor. Qed.

Lemma only_exec (P : effect → Prop) argv : P (Exec argv) → only P (exec w argv).
Proof.
  intros He s. exists [Exec argv]. unfold exec.
  destruct (runs_for (behaviour w argv)); (split; [done|by constructor]).
Qed.

Lemma only_bind P {A B} (m : sh A) (k : A → sh B) :
  only P m → (∀ a, only P (k a)) → only P (m ≫= k).
Proof.
  intros Hm Hk s. destruct (Hm s) as (more1 & T1 & F1).
  unfold mbind, sh_bind. destruct (m s) as [a s1|n s1|s1]; simpl in *; [|by eauto..].
  destruct (Hk a s1) as (more2 & T2 & F2).
  exists (more1 ++ more2). rewrite T2, T1, app_assoc. split; [done|].
  by apply Forall_app.
Qed.

Lemma only_guard P script args example :
  (∀ l, P (Echo l)) → only P (dump_file_guard w script args example).
Proof.
  intros HP. unfold dump_file_guard.
  destruct (_ || _); [|apply only_ret].
  apply only_bind; [by apply only_emit|]. intros _.
  apply only_bind; [by apply only_emit|]. intros _. apply only_exit.
Qed.

Lemma adds_exec (Hexit : all_exit w) argv : adds (Exec argv) (exec w argv).
Proof.
  intros s. unfold exec. destruct (Hexit argv) as [d ->].
  eexists _, _, [Exec argv]. split; [done|]. split; [done|]. by left.
Qed.

Lemma adds_bind_l e {A B} (m : sh A) (k : A → sh B) :
  adds e m → (∀ a, falls_through (k a)) → adds e (m ≫= k).
Proof.
  intros Hm Hk s. destruct (Hm s) as (a & s1 & more1 & E1 & T1 & I1).
  destruct (Hk a s1) as (b & s2 & more2 & E2 & T2).
  exists b, s2, (more1 ++ more2). unfold mbind, sh_bind. rewrite E1, E2.
  split; [done|]. split; [by rewrite T2, T1, app_assoc|].
  apply elem_of_app. by left.
Qed.

Lemma adds_bind_r e {A B} (m : sh A) (k : A → sh B) :
  falls_through m → (∀ a, adds e (k a)) → adds e (m ≫= k).
Proof.
  intros Hm Hk s. destruct (Hm s) as (a & s1 & more1 & E1 & T1).
  destruct (Hk a s1) as (b & s2 & more2 & E2 & T2 & I2).
  exists b, s2, (more1 ++ more2). unfold mbind, sh_bind. rewrite E1, E2.
  split; [done|]. split; [by rewrite T2, T1, app_assoc|].
  apply elem_of_app. by right.
Qed.

End effects.

Ltac only_step :=
  first [ apply only_ret | apply only_exit
        | apply only_guard; intros ? ? [=]
        | apply only_emit; intros ? [=]
        | apply only_exec; intros ? [= <-]; simpl; try done; congruence
        | apply only_bind; [|intros ?] ].

Lemma script_only_runs_installed (w : Sh.world) (script : string)
    (args : list string) (tool : string) :
  tool ∈ ["binwalk"; "foremost"; "bulk_extractor"; "yara"] →
  Sh.command_v w tool = false →
  Sh.only (λ e, ∀ argv, e = Sh.Exec argv → nth 0 argv "" ≠ tool)
    (MultiTool.script w script args).
Proof.
  intros Hin Hmissing.
  unfold MultiTool.script, MultiTool.binwalk_step, MultiTool.foremost_step,
    MultiTool.bulk_extractor_step, MultiTool.yara_step, MultiTool.strings_step,
    MultiTool.hexdump_step, MultiTool.custom_step, Sh.exec_to, Sh.and_then,
    MultiTool.binwalk_argv, MultiTool.yara_argv.
  destruct (Sh.command_v w "binwalk") eqn:?, (Sh.command_v w "foremost") eqn:?,
    (Sh.command_v w "bulk_extractor") eqn:?, (Sh.command_v w "yara") eqn:?;
  rewrite !elem_of_cons, elem_of_nil in Hin;
  destruct Hin as [->|[->|[->|[->|[]]]]]; try congruence;
  repeat first [ only_step | case_bool_decide ].
Qed.

(** X9: a tool that is not installed is not run.  When [command -v] does
    not find binwalk, foremost, bulk_extractor or yara,
    multi-tool-forensic.sh runs no command line of that tool in this run,
    however the run ends; on a machine where every command line exits and
    with a dump file that exists, it runs [sudo apt-get] instead and goes on
    to the end of the script. *)
Theorem missing_tool_is_installed_not_run (w : Sh.world) (script : string)
    (args : list string) (tool : string) :
  tool ∈ ["binwalk"; "foremost"; "bulk_extractor"; "yara"] →
  Sh.command_v w tool = false →
  (∀ argv,
     Sh.Exec argv ∈ Sh.trace (Sh.state_of (MultiTool.script w script args Sh.start)) →
     nth 0 argv "" ≠ tool)
  ∧ (Sh.all_exit w → nth 0 args "" ≠ "" → Sh.is_file w (nth 0 args "") = true →
     ∃ s argv,
       Sh.run (MultiTool.script w script args) = Sh.Finished 0 s
       ∧ Sh.Exec argv ∈ Sh.trace s
       ∧ take 2 argv = ["sudo"; "apt-get"]).
Proof.
  intros Hin Hmissing. split.
  - intros argv Hrun.
    destruct (script_only_runs_installed w script args tool Hin Hmissing Sh.start)
      as (more & Htrace & Hmore).
    rewrite Htrace in Hrun. simpl in Hrun.
    eapply Forall_forall in Hmore; [|exact Hrun]. by apply Hmore.
  - intros Hexit Hne Hfile.
    assert (∃ argv, take 2 argv = ["sudo"; "apt-get"]
                    ∧ Sh.adds (Sh.Exec argv) (MultiTool.script w script args))
      as (argv & Hsudo & Hadds).
    { rewrite !elem_of_cons, elem_of_nil in Hin.
      destruct Hin as [->|[->|[->|[->|[]]]]].
      - exists ["sudo"; "apt-get"; "update"]. split; [done|].
        unfold MultiTool.script.
        apply adds_bind_r.
        { intros s. rewrite guard_accepts by done. eexists _, s, [].
          split; [done|]. by rewrite app_nil_r. }
        intros DUMP_FILE.
        apply adds_bind_r; [apply falls_through_emit|]. intros _.
        apply adds_bind_r; [apply falls_through_emit|]. intros _.
        apply adds_bind_l.
        + unfold MultiTool.binwalk_step. rewrite Hmissing.
          apply adds_bind_l; [|intros ?; apply falls_through_ret].
          unfold Sh.and_then.
          apply adds_bind_l; [by apply adds_exec|].
          intros r. case_bool_decide;
            [by apply falls_through_exec | apply falls_through_ret].
        + intros _.
          repeat first
            [ apply foremost_step_falls_through | apply bulk_extractor_step_falls_through
            | apply yara_step_falls_through | apply strings_step_falls_through
            | apply hexdump_step_falls_through | apply custom_step_falls_through
            | apply falls_through_exec | apply falls_through_emit
            | apply falls_through_bind; [|intros ?] ]; done.
      - exists ["sudo"; "apt-get"; "install"; "-y"; "foremost"]. split; [done|].
        unfold MultiTool.script.
        apply adds_bind_r.
        { intros s. rewrite guard_accepts by done. eexists _, s, [].
          split; [done|]. by rewrite app_nil_r. }
        intros DUMP_FILE.
        apply adds_bind_r; [apply falls_through_emit|]. intros _.
        apply adds_bind_r; [apply falls_through_emit|]. intros _.
        apply adds_bind_r; [by apply binwalk_step_falls_through|]. intros _.
        apply adds_bind_l.
        + unfold MultiTool.foremost_step. rewrite Hmissing.
          apply adds_bind_l; [by apply adds_exec|intros ?; apply falls_through_ret].
        + intros _.
          repeat first
            [ apply bulk_extractor_step_falls_through
            | apply yara_step_falls_through | apply strings_step_falls_through
            | apply hexdump_step_falls_through | apply custom_step_falls_through
            | apply falls_through_exec | apply falls_through_emit
            | apply falls_through_bind; [|intros ?] ]; done.
      - exists ["sudo"; "apt-get"; "install"; "-y"; "bulk-extractor"]. split; [done|].
        unfold MultiTool.script.
        apply adds_bind_r.
        { intros s. rewrite guard_accepts by done. eexists _, s, [].
          split; [done|]. by rewrite app_nil_r. }
        intros DUMP_FILE.
        apply adds_bind_r; [apply falls_through_emit|]. intros _.
        apply adds_bind_r; [apply falls_through_emit|]. intros _.
        apply adds_bind_r; [by apply binwalk_step_falls_through|]. intros _.
        apply adds_bind_r; [by apply foremost_step_falls_through|]. intros _.
        apply adds_bind_l.
        + unfold MultiTool.bulk_extractor_step. rewrite Hmissing.
          apply adds_bind_l; [by apply adds_exec|intros ?; apply falls_through_ret].
        + intros _.
          repeat first
            [ apply yara_step_falls_through | apply strings_step_falls_through
            | apply hexdump_step_falls_through | apply custom_step_falls_through
            | apply falls_through_exec | apply falls_through_emit
            | apply falls_through_bind; [|intros ?] ]; done.
      - exists ["sudo"; "apt-get"; "install"; "-y"; "yara"]. split; [done|].
        unfold MultiTool.script.
        apply adds_bind_r.
        { intros s. rewrite guard_accepts by done. eexists _, s, [].
          split; [done|]. by rewrite app_nil_r. }
        intros DUMP_FILE.
        apply adds_bind_r; [apply falls_through_emit|]. intros _.
        apply adds_bind_r; [apply falls_through_emit|]. intros _.
        apply adds_bind_r; [by apply binwalk_step_falls_through|]. intros _.
        apply adds_bind_r; [by apply foremost_step_falls_through|]. intros _.
        apply adds_bind_r; [by apply bulk_extractor_step_falls_through|]. intros _.
        apply adds_bind_l.
        + unfold MultiTool.yara_step. rewrite Hmissing.
          apply adds_bind_r; [apply falls_through_emit|]. intros _.
          apply adds_bind_l; [by apply adds_exec|intros ?; apply falls_through_ret].
        + intros _.
          repeat first
            [ apply strings_step_falls_through
            | apply hexdump_step_falls_through | apply custom_step_falls_through
            | apply falls_through_exec | apply falls_through_emit
            | apply falls_through_bind; [|intros ?] ]; done. }
    destruct (Hadds Sh.start) as ([] & s & more & Hrun & Htrace & Hmore).
    exists s, argv. unfold Sh.run. rewrite Hrun. split; [done|].
    split; [|done]. rewrite Htrace. apply elem_of_app. by right.
Qed.

Lemma missing_tool_is_installed_not_run_witness :
  (∀ argv,
     Sh.Exec argv ∈ Sh.trace (Sh.state_of
       (MultiTool.script (MultiTool.without "foremost")
          "./multi-tool-forensic.sh" ["./api_dumps/instance.dump"] Sh.start)) →
     nth 0 argv "" ≠ "foremost")
  ∧ (∃ s argv,
       Sh.run (MultiTool.script (MultiTool.without "foremost")
                 "./multi-tool-forensic.sh" ["./api_dumps/instance.dump"])
       = Sh.Finished 0 s
       ∧ Sh.Exec argv ∈ Sh.trace s
       ∧ take 2 argv = ["sudo"; "apt-get"]).
Proof.
  destruct (missing_tool_is_installed_not_run (MultiTool.without "foremost")
              "./multi-tool-forensic.sh" ["./api_dumps/instance.dump"] "foremost")
    as [Hnot Hinstead].
  - right. left.
  - reflexivity.
  - split; [exact Hnot|]. apply Hinstead.
    + intros argv. simpl. eauto.
    + discriminate.
    + reflexivity.
Defined.

(** ** The summary of multi-tool-forensic.sh *)










(** ** cn.ts *)

Lemma string_app_assoc (a b c : string) : (a +:+ b) +:+ c = a +:+ b +:+ c.
Proof.
  induction a as [|x a IH]; [done|].
  change (String x ((a +:+ b) +:+ c) = String x (a +:+ b +:+ c)).
  by rewrite IH.
Qed.

Lemma join_cons sep x l :
  l ≠ [] → Cn.join sep (x :: l) = x +:+ sep +:+ Cn.join sep l.
Proof. by destruct l. Qed.

Lemma join_app sep xs ys :
  xs ≠ [] → ys ≠ [] →
  Cn.join sep (xs ++ ys) = Cn.join sep xs +:+ sep +:+ Cn.join sep ys.
Proof.
  intros Hxs Hys. induction xs as [|x xs IH]; [done|].
  destruct xs as [|x' xs].
  - simpl. by destruct ys.
  - change ((x :: x' :: xs) ++ ys) with (x :: ((x' :: xs) ++ ys)).
    rewrite !join_cons by done. rewrite IH by done.
    by rewrite !string_app_assoc.
Qed.

Lemma pushed_numbers {number} (nf nf' : number → bool) :
  ∀ c : Cn.ClassValue number, Cn.pushed nf c = Cn.pushed nf' c.
Proof.
  fix IH 1. intros [s|x| | |b|entries|nested]; simpl; try done.
  - by destruct (nf x), (nf' x).
  - do 2 f_equal.
    induction nested as [|c nested IHn]; [done|]. by rewrite (IH c), IHn.
Qed.

Lemma result_app {number} (nf : number → bool) (l1 l2 : list (Cn.ClassValue number)) :
  Cn.result nf (l1 ++ l2) = Cn.result nf l1 ++ Cn.result nf l2.
Proof. unfold Cn.result. by rewrite flat_map_app. Qed.

Lemma result_Arr {number} (nf : number → bool) (items after : list (Cn.ClassValue number)) :
  Cn.result nf (Cn.Arr items :: after)
  = Cn.join " " (Cn.result nf items) :: Cn.result nf after.
Proof. reflexivity. Qed.

Lemma join_segment sep xs ys zs :
  ys ≠ [] →
  Cn.join sep (xs ++ Cn.join sep ys :: zs) = Cn.join sep (xs ++ ys ++ zs).
Proof.
  intros Hys.
  assert (Cn.join sep (Cn.join sep ys :: zs) = Cn.join sep (ys ++ zs)) as Htail.
  { destruct zs as [|z zs]; [by rewrite app_nil_r|].
    by rewrite join_cons, join_app. }
  destruct xs as [|x xs]; [done|].
  rewrite !(join_app sep (x :: xs)); [by rewrite Htail|done|by destruct ys|done|done].
Qed.

(** X10: how [cn] treats a nested array.  An array that contributes at
    least one name is flattened: the call gives the same string as with the
    array's items written in its place.  An array that contributes nothing
    (empty, or holding only values that are skipped) is not skipped itself:
    it leaves an empty segment, so between names on both sides the result
    has two spaces.  Numbers never contribute, whatever is taken as zero. *)
Theorem cn_nested_array {number} (number_falsy number_falsy' : number → bool)
    (before items after : list (Cn.ClassValue number)) :
  (Cn.result number_falsy items ≠ [] →
   Cn.cn number_falsy (before ++ Cn.Arr items :: after)
   = Cn.cn number_falsy (before ++ items ++ after))
  ∧ (Cn.result number_falsy items = [] →
     Cn.result number_falsy before ≠ [] → Cn.result number_falsy after ≠ [] →
     Cn.cn number_falsy (before ++ Cn.Arr items :: after)
     = Cn.cn number_falsy before +:+ "  " +:+ Cn.cn number_falsy after)
  ∧ Cn.cn number_falsy items = Cn.cn number_falsy' items.
Proof.
  split; [|split].
  - intros Hitems. unfold Cn.cn.
    rewrite !result_app, result_Arr.
    by apply join_segment.
  - intros Hitems Hbefore Hafter. unfold Cn.cn.
    rewrite result_app, result_Arr, Hitems.
    rewrite join_app by done. by rewrite join_cons by done.
  - unfold Cn.cn, Cn.result. f_equal.
    induction items as [|c items IH]; simpl; [done|].
    by rewrite IH, (pushed_numbers number_falsy number_falsy').
Qed.

Example cn_samples :
  Cn.cn (λ x : Z, bool_decide (x = 0%Z))
    [Cn.Str "a"; Cn.Arr [Cn.Str "b"; Cn.Obj [("c", true); ("d", false)]];
     Cn.Num 7%Z; Cn.Bool true; Cn.Null; Cn.Str "e"] = "a b c e"
  ∧ Cn.cn (λ x : Z, bool_decide (x = 0%Z))
      [Cn.Str "a"; Cn.Arr []; Cn.Str "b"] = "a  b"
  ∧ Cn.cn (λ x : Z, bool_decide (x = 0%Z))
      [Cn.Str "a"; Cn.Arr [Cn.Null; Cn.Bool false]] = "a ".
Proof. done. Qed.
